(** * todo-vibe: the view-state logic of the task page

    A shallow embedding of the two page components of the repository:
    the in-memory page (src/unnamed/part_000) and the persisted page
    (src/app/page.tsx), which mirrors a remote store.  Both share the
    [Todo] record, the derived view ([filteredAndSortedTodos]) and the
    aggregates ([progressPercentage], [categoryStats]); they differ in
    the mutation handlers ([addTodo], [toggleTodo], [deleteTodo],
    [saveEditing], [saveFieldEditing]).

    Conventions of the embedding.
    - A JavaScript string is the list of its UTF-16 code units.
    - A JavaScript array held in React state is a list; where a handler
      sorts an array in place the arrays live in a store of locations
      (module [ArrayStore]).
    - A Number that is an integer count is a [nat]; a Number that comes out
      of a division is an IEEE-754 binary64 value ([spec_float]); the
      result of a sort comparator is [option Z] with [None] for NaN.
    - [await] on a remote call splits a handler into the part before the
      call, the request, and a continuation that runs against the state
      found when the response arrives (type [Op]). *)

From Stdlib Require Import ZArith NArith List Bool Lia Permutation Sorted String Ascii.
From Stdlib Require Import Floats.SpecFloat.
From stdpp Require Import base gmap list.

Local Open Scope Z_scope.

(* ================================================================== *)
(** ** JavaScript strings *)
(* ================================================================== *)

(** A string value: UTF-16 code units. *)
Abbreviation jsstring := (list N).

(** Reading a source literal.  The literals of the pages are written in
    UTF-8 in the source files; [js] decodes such a literal into its code
    units (one unit per BMP character, a surrogate pair above). *)
Fixpoint utf16_of_utf8 (bs : list N) : jsstring :=
  match bs with
  | [] => []
  | b0 :: r0 =>
    if (b0 <? 0x80)%N then b0 :: utf16_of_utf8 r0
    else
      match r0 with
      | [] => [0xFFFD%N]
      | b1 :: r1 =>
        if (b0 <? 0xE0)%N then
          ((b0 mod 32) * 64 + b1 mod 64)%N :: utf16_of_utf8 r1
        else
          match r1 with
          | [] => [0xFFFD%N]
          | b2 :: r2 =>
            if (b0 <? 0xF0)%N then
              ((b0 mod 16) * 4096 + (b1 mod 64) * 64 + b2 mod 64)%N
                :: utf16_of_utf8 r2
            else
              match r2 with
              | [] => [0xFFFD%N]
              | b3 :: r3 =>
                let cp := ((b0 mod 8) * 262144 + (b1 mod 64) * 4096
                           + (b2 mod 64) * 64 + b3 mod 64)%N in
                let v := (cp - 0x10000)%N in
                (0xD800 + v / 1024)%N :: (0xDC00 + v mod 1024)%N
                  :: utf16_of_utf8 r3
              end
          end
      end
  end.

Definition js (s : string) : jsstring :=
  utf16_of_utf8 (List.map (fun b => N_of_ascii b) (list_ascii_of_string s)).

(** ECMAScript WhiteSpace and LineTerminator code points: what
    [String.prototype.trim] strips. *)
Definition isWhiteSpace (c : N) : bool :=
  ((c =? 0x09) || (c =? 0x0A) || (c =? 0x0B) || (c =? 0x0C) || (c =? 0x0D)
   || (c =? 0x20) || (c =? 0xA0) || (c =? 0x1680)
   || ((0x2000 <=? c) && (c <=? 0x200A))
   || (c =? 0x2028) || (c =? 0x2029) || (c =? 0x202F) || (c =? 0x205F)
   || (c =? 0x3000) || (c =? 0xFEFF))%N.

Fixpoint trimStart (s : jsstring) : jsstring :=
  match s with
  | [] => []
  | c :: r => if isWhiteSpace c then trimStart r else s
  end.

Definition trimEnd (s : jsstring) : jsstring := rev (trimStart (rev s)).

(** [s.trim()] *)
Definition trim (s : jsstring) : jsstring := trimEnd (trimStart s).

(** [s === t] on strings. *)
Definition str_eqb (s t : jsstring) : bool := bool_decide (s = t).

(** Truthiness of a string: only the empty string is falsy. *)
Definition truthy (s : jsstring) : bool :=
  match s with [] => false | _ :: _ => true end.

(* ================================================================== *)
(** ** Domain model *)
(* ================================================================== *)

(** [type Priority = "low" | "medium" | "high"] *)
Inductive Priority := low | medium | high.

Global Instance Priority_eq_dec : EqDecision Priority.
Proof. solve_decision. Defined.

(** [interface Todo] *)
Record Todo := mkTodo {
  id : jsstring;
  text : jsstring;
  category : jsstring;
  priority : Priority;
  dueDate : jsstring;
  completed : bool
}.

Global Instance Todo_eq_dec : EqDecision Todo.
Proof. solve_decision. Defined.

(** [Omit<Todo, "id" | "completed">]: the create form and the row draft. *)
Record FormFields := mkForm {
  form_text : jsstring;
  form_category : jsstring;
  form_priority : Priority;
  form_dueDate : jsstring
}.

(** [categoryOptions] (the values; labels equal the values). *)
Definition categoryOptions : list jsstring :=
  [ js "업무"; js "개인"; js "학습"; js "기타" ].

(** [categoryOptions[0].value] *)
Definition defaultCategory : jsstring := js "업무".

(** The value both [useState] calls give the forms and [resetForm] restores. *)
Definition emptyForm : FormFields :=
  {| form_text := []; form_category := defaultCategory;
     form_priority := medium; form_dueDate := [] |}.

(** [type FilterType = "all" | "completed" | "pending"] *)
Inductive FilterType := FilterAll | FilterCompleted | FilterPending.

(** [type SortType = "date" | "priority" | "category" | "name"] *)
Inductive SortType := SortDate | SortPriority | SortCategory | SortName.

(** The field of a single-field edit: ["category" | "priority" | "dueDate"]. *)
Inductive EditField := FieldCategory | FieldPriority | FieldDueDate.

Record FieldEditing := mkFieldEditing {
  fe_id : jsstring;
  fe_field : EditField
}.

(* ================================================================== *)
(** ** Aggregates *)
(* ================================================================== *)

(** [todos.filter((todo) => todo.completed).length] *)
Definition completedCount (todos : list Todo) : nat :=
  length (List.filter (fun todo => completed todo) todos).

(** [todos.filter((todo) => !todo.completed).length] *)
Definition pendingCount (todos : list Todo) : nat :=
  length (List.filter (fun todo => negb (completed todo)) todos).

(** *** binary64 arithmetic *)

Definition f64_prec : Z := 53.
Definition f64_emax : Z := 1024.

(** The Number of an integer (exact below 2^53). *)
Definition f64_of_Z (n : Z) : spec_float :=
  binary_normalize f64_prec f64_emax n 0 false.

Definition f64_div : spec_float -> spec_float -> spec_float :=
  SFdiv f64_prec f64_emax.
Definition f64_mul : spec_float -> spec_float -> spec_float :=
  SFmul f64_prec f64_emax.

(** [floor (x + 1/2)] of the real number [(-1)^s * m * 2^e], computed
    exactly. *)
Definition round_half_up_finite (s : bool) (m : positive) (e : Z) : Z :=
  let sm := if s then Z.neg m else Z.pos m in
  if 0 <=? e then sm * 2 ^ e
  else (2 * sm + 2 ^ (- e)) / 2 ^ (1 - e).

(** [Math.round]: the integral Number closest to [x], ties towards
    +infinity; NaN, the infinities and the zeros are returned as they are. *)
Definition Math_round (x : spec_float) : spec_float :=
  match x with
  | S754_finite s m e =>
    binary_normalize f64_prec f64_emax (round_half_up_finite s m e) 0 s
  | _ => x
  end.

(** The body of the [progressPercentage] memo, over its two dependencies
    [todos.length] and [completedCount]. *)
Definition progressPercentageOf (len completedCount : nat) : spec_float :=
  if (len =? 0)%nat then f64_of_Z 0
  else
    Math_round
      (f64_mul
         (f64_div (f64_of_Z (Z.of_nat completedCount))
                  (f64_of_Z (Z.of_nat len)))
         (f64_of_Z 100)).

(** [progressPercentage] *)
Definition progressPercentage (todos : list Todo) : spec_float :=
  progressPercentageOf (length todos) (completedCount todos).

(* ================================================================== *)
(** ** Per-category statistics *)
(* ================================================================== *)

(** One entry of [categoryStats]: [{ total, completed }]. *)
Record CategoryStat := mkStat {
  stat_total : nat;
  stat_completed : nat
}.

(** The statistics object is a plain object literal, so a key that is not
    an own property is still looked up on [Object.prototype]. *)
Definition objectPrototypeKeys : list jsstring :=
  List.map js
    [ "constructor"; "hasOwnProperty"; "isPrototypeOf";
      "propertyIsEnumerable"; "toLocaleString"; "toString"; "valueOf";
      "__proto__"; "__defineGetter__"; "__defineSetter__";
      "__lookupGetter__"; "__lookupSetter__" ]%string.

(** What [stats[key]] evaluates to. *)
Inductive StatsLookup :=
| OwnRecord (r : CategoryStat)   (* a record the computation initialised *)
| Inherited                      (* a function or object of the prototype *)
| Undefined.                     (* [undefined] *)

Definition stats_get (stats : gmap jsstring CategoryStat) (key : jsstring)
  : StatsLookup :=
  match stats !! key with
  | Some r => OwnRecord r
  | None =>
    if bool_decide (key ∈ objectPrototypeKeys) then Inherited else Undefined
  end.

(** A computation either returns or throws a [TypeError]. *)
Inductive Outcome (A : Type) :=
| Returned (a : A)
| TypeError.
Arguments Returned {A} a.
Arguments TypeError {A}.

(** [categoryOptions.forEach((cat) => { stats[cat.value] = { total: 0, completed: 0 } })] *)
Definition initialStats : gmap jsstring CategoryStat :=
  List.fold_left (fun stats cat => <[cat := mkStat 0 0]> stats)
                 categoryOptions ∅.

(** The body of [todos.forEach((todo) => ...)]: [stats[todo.category].total++]
    and, for a completed task, [stats[todo.category].completed++].
    Reading a property of [undefined] throws; incrementing a property of an
    inherited function or object succeeds and leaves the own records of
    [stats] as they are. *)
Definition countTodo (stats : gmap jsstring CategoryStat) (todo : Todo)
  : Outcome (gmap jsstring CategoryStat) :=
  match stats_get stats (category todo) with
  | OwnRecord r =>
    let r1 := mkStat (S (stat_total r)) (stat_completed r) in
    let r2 := if completed todo
              then mkStat (stat_total r1) (S (stat_completed r1)) else r1 in
    Returned (<[category todo := r2]> stats)
  | Inherited => Returned stats
  | Undefined => TypeError
  end.

Fixpoint forEach_countTodo (todos : list Todo)
  (stats : gmap jsstring CategoryStat) : Outcome (gmap jsstring CategoryStat) :=
  match todos with
  | [] => Returned stats
  | todo :: rest =>
    match countTodo stats todo with
    | Returned stats' => forEach_countTodo rest stats'
    | TypeError => TypeError
    end
  end.

(** [categoryStats] *)
Definition categoryStats (todos : list Todo)
  : Outcome (gmap jsstring CategoryStat) :=
  forEach_countTodo todos initialStats.

(** The counters of one category as the page reads them
    ([categoryStats[category.value]]). *)
Definition totalOf (stats : gmap jsstring CategoryStat) (cat : jsstring) : nat :=
  match stats !! cat with Some r => stat_total r | None => 0%nat end.

Definition completedOf (stats : gmap jsstring CategoryStat) (cat : jsstring) : nat :=
  match stats !! cat with Some r => stat_completed r | None => 0%nat end.

(** Sum of a counter over the enumerated categories. *)
Definition sumOver (f : jsstring -> nat) (cats : list jsstring) : nat :=
  List.fold_right (fun cat acc => (f cat + acc)%nat) 0%nat cats.
Arguments sumOver : simpl never.

(* ================================================================== *)
(** ** Derived view *)
(* ================================================================== *)

(** [Array.prototype.sort] with a comparator.  The comparator's Number is
    read as ECMAScript's SortCompare does: NaN counts as +0, a positive
    value puts the second argument first.  The sort is stable
    (ECMAScript 2019), so for a consistent comparator the result is the
    one an insertion from the right produces. *)
Section ArraySort.
Context {A : Type}.
Variable comparefn : A -> A -> option Z.

Definition sortCompare (x y : A) : Z :=
  match comparefn x y with
  | Some v => v
  | None => 0
  end.

Fixpoint sort_insert (x : A) (sorted : list A) : list A :=
  match sorted with
  | [] => [x]
  | y :: rest =>
    if 0 <? sortCompare x y then y :: sort_insert x rest
    else x :: y :: rest
  end.

Definition Array_sort (l : list A) : list A :=
  List.fold_right sort_insert [] l.

End ArraySort.

Section DerivedView.

(** [new Date(s).getTime()]: milliseconds since the epoch, [None] for NaN
    (an invalid date).  Date parsing is the host's. *)
Variable Date_getTime : jsstring -> option Z.

(** [a.localeCompare(b)]: the host's collation, a negative, zero or
    positive integer. *)
Variable localeCompare : jsstring -> jsstring -> Z.

(** [const priorityOrder = { high: 3, medium: 2, low: 1 }] *)
Definition priorityOrder (p : Priority) : Z :=
  match p with high => 3 | medium => 2 | low => 1 end.

(** The status branch of the filter. *)
Definition statusPasses (flt : FilterType) (todo : Todo) : bool :=
  match flt with
  | FilterCompleted => completed todo
  | FilterPending => negb (completed todo)
  | FilterAll => true
  end.

(** The category branch of the filter: [categoryFilter !== "all"] guards
    the comparison [todo.category === categoryFilter]. *)
Definition categoryPasses (categoryFilter : jsstring) (todo : Todo) : bool :=
  if str_eqb categoryFilter (js "all") then true
  else str_eqb (category todo) categoryFilter.

(** The two [filter] calls of [filteredAndSortedTodos], in their order. *)
Definition filterTodos (flt : FilterType) (categoryFilter : jsstring)
  (todos : list Todo) : list Todo :=
  let filtered := todos in
  let filtered :=
    match flt with
    | FilterCompleted => List.filter (fun todo => completed todo) filtered
    | FilterPending => List.filter (fun todo => negb (completed todo)) filtered
    | FilterAll => filtered
    end in
  if negb (str_eqb categoryFilter (js "all")) then
    List.filter (fun todo => str_eqb (category todo) categoryFilter) filtered
  else filtered.

(** The comparator handed to [sort].  The times are integers of magnitude
    at most 8.64e15, so the binary64 difference has the sign of the exact
    one and is zero only for equal times; the exact difference stands for
    it. *)
Definition compareTodos (sortBy : SortType) (a b : Todo) : option Z :=
  match sortBy with
  | SortPriority =>
    Some (priorityOrder (priority b) - priorityOrder (priority a))
  | SortCategory => Some (localeCompare (category a) (category b))
  | SortName => Some (localeCompare (text a) (text b))
  | SortDate =>
    if negb (truthy (dueDate a)) && negb (truthy (dueDate b)) then Some 0
    else if negb (truthy (dueDate a)) then Some 1
    else if negb (truthy (dueDate b)) then Some (-1)
    else
      match Date_getTime (dueDate a), Date_getTime (dueDate b) with
      | Some ta, Some tb => Some (ta - tb)
      | _, _ => None
      end
  end.

(** [filteredAndSortedTodos], as the value the memo returns. *)
Definition filteredAndSortedTodos (flt : FilterType)
  (categoryFilter : jsstring) (sortBy : SortType) (todos : list Todo)
  : list Todo :=
  Array_sort (compareTodos sortBy) (filterTodos flt categoryFilter todos).

End DerivedView.

(** The date strings a date input produces, [YYYY-MM-DD], read as
    [Date.parse] reads the ISO date-only form: midnight UTC of that day,
    NaN when the fields are out of range.  Used to run the view on
    concrete tasks. *)
Definition digit (c : N) : option Z :=
  if ((0x30 <=? c) && (c <=? 0x39))%N then Some (Z.of_N c - 0x30) else None.

Definition isLeapYear (y : Z) : bool :=
  ((y mod 4 =? 0) && negb (y mod 100 =? 0)) || (y mod 400 =? 0).

Definition daysInMonth (y m : Z) : Z :=
  if m =? 2 then (if isLeapYear y then 29 else 28)
  else if (m =? 4) || (m =? 6) || (m =? 9) || (m =? 11) then 30 else 31.

(** Days from 1970-01-01 to the civil date [y-m-d]. *)
Definition daysFromCivil (y m d : Z) : Z :=
  let y' := if m <=? 2 then y - 1 else y in
  let era := y' / 400 in
  let yoe := y' - era * 400 in
  let mp := (m + 9) mod 12 in
  let doy := (153 * mp + 2) / 5 + d - 1 in
  let doe := yoe * 365 + yoe / 4 - yoe / 100 + doy in
  era * 146097 + doe - 719468.

Definition isoDateTime (s : jsstring) : option Z :=
  match s with
  | [y1; y2; y3; y4; h1; m1; m2; h2; d1; d2] =>
    match digit y1, digit y2, digit y3, digit y4,
          digit m1, digit m2, digit d1, digit d2 with
    | Some a, Some b, Some c, Some d, Some e, Some f, Some g, Some h =>
      let y := a * 1000 + b * 100 + c * 10 + d in
      let m := e * 10 + f in
      let dd := g * 10 + h in
      if ((h1 =? 0x2D) && (h2 =? 0x2D))%N
         && (1 <=? m) && (m <=? 12) && (1 <=? dd) && (dd <=? daysInMonth y m)
      then Some (daysFromCivil y m dd * 86400000)
      else None
    | _, _, _, _, _, _, _, _ => None
    end
  | _ => None
  end.

(** Code-unit order, standing in for a collation where a concrete one is
    needed. *)
Fixpoint codeUnitCompare (a b : jsstring) : Z :=
  match a, b with
  | [], [] => 0
  | [], _ :: _ => -1
  | _ :: _, [] => 1
  | x :: a', y :: b' =>
    if (x <? y)%N then -1 else if (y <? x)%N then 1 else codeUnitCompare a' b'
  end.

(* ================================================================== *)
(** ** The derived view over arrays that can be shared *)
(* ================================================================== *)

(** [sort] works in place and [filter] and the spread allocate, so whether
    the memo touches the array held in state depends on which array
    [filtered] names when [sort] runs.  Arrays live at locations of a
    store; a handler is a state transformer that may fail on a dangling
    location. *)
Module ArrayStore.

Abbreviation loc := positive.
Abbreviation store := (gmap positive (list Todo)).

Definition StoreM (A : Type) : Type := store -> option (A * store).

Definition ret {A} (a : A) : StoreM A := fun σ => Some (a, σ).

Definition bind {A B} (m : StoreM A) (k : A -> StoreM B) : StoreM B :=
  fun σ => match m σ with
           | Some (a, σ') => k a σ'
           | None => None
           end.

Global Instance StoreM_ret : MRet StoreM := @ret.
Global Instance StoreM_bind : MBind StoreM := fun A B k m => bind m k.

(** A new array with the given elements. *)
Definition alloc (arr : list Todo) : StoreM loc :=
  fun σ => let l := fresh (dom σ) in Some (l, <[l := arr]> σ).

Definition read (l : loc) : StoreM (list Todo) :=
  fun σ => match σ !! l with
           | Some arr => Some (arr, σ)
           | None => None
           end.

Definition write (l : loc) (arr : list Todo) : StoreM unit :=
  fun σ => Some (tt, <[l := arr]> σ).

(** [[...a]] *)
Definition spread (a : loc) : StoreM loc :=
  arr ← read a; alloc arr.

(** [a.filter(p)]: a new array. *)
Definition Array_filter (p : Todo -> bool) (a : loc) : StoreM loc :=
  arr ← read a; alloc (List.filter p arr).

(** [a.sort(comparefn)]: sorts [a] itself and returns it. *)
Definition Array_sort_in_place (comparefn : Todo -> Todo -> option Z) (a : loc)
  : StoreM loc :=
  arr ← read a;
  _ ← write a (Array_sort comparefn arr);
  mret a.

Section Memo.
Variable Date_getTime : jsstring -> option Z.
Variable localeCompare : jsstring -> jsstring -> Z.

(** The body of the [filteredAndSortedTodos] memo, statement by statement;
    [todos] is the array held in state. *)
Definition filteredAndSortedTodos (flt : FilterType)
  (categoryFilter : jsstring) (sortBy : SortType) (todos : loc) : StoreM loc :=
  filtered ← spread todos;
  filtered ←
    match flt with
    | FilterCompleted => Array_filter (fun todo => completed todo) filtered
    | FilterPending => Array_filter (fun todo => negb (completed todo)) filtered
    | FilterAll => mret filtered
    end;
  filtered ←
    (if negb (str_eqb categoryFilter (js "all"))
     then Array_filter (fun todo => str_eqb (category todo) categoryFilter)
                       filtered
     else mret filtered);
  _ ← Array_sort_in_place
            (compareTodos Date_getTime localeCompare sortBy) filtered;
  mret filtered.

End Memo.
End ArrayStore.

(* ================================================================== *)
(** ** Mutation handlers of the in-memory page *)
(* ================================================================== *)

(** ["low" | "medium" | "high"] as the strings they are at run time. *)
Definition priorityString (p : Priority) : jsstring :=
  match p with low => js "low" | medium => js "medium" | high => js "high" end.

Definition priorityOfString (v : jsstring) : option Priority :=
  if str_eqb v (js "low") then Some low
  else if str_eqb v (js "medium") then Some medium
  else if str_eqb v (js "high") then Some high
  else None.

(** [{ ...todo, [field]: value }] for the draft of a single-field edit.
    The priority draft is cast ([fieldEditValue as Priority]) without a
    check; the draft comes from a select over [priorityOptions], and a
    string outside the union has no counterpart in [Todo], so the row then
    keeps its priority. *)
Definition setField (field : EditField) (value : jsstring) (todo : Todo) : Todo :=
  match field with
  | FieldCategory =>
    mkTodo (id todo) (text todo) value (priority todo) (dueDate todo)
           (completed todo)
  | FieldPriority =>
    match priorityOfString value with
    | Some p =>
      mkTodo (id todo) (text todo) (category todo) p (dueDate todo)
             (completed todo)
    | None => todo
    end
  | FieldDueDate =>
    mkTodo (id todo) (text todo) (category todo) (priority todo) value
           (completed todo)
  end.

(** [{ ...todo, completed: c }] *)
Definition setCompleted (c : bool) (todo : Todo) : Todo :=
  mkTodo (id todo) (text todo) (category todo) (priority todo) (dueDate todo) c.

(** [{ ...todo, text: ..., category: ..., priority: ..., dueDate: ... }]
    from the row draft. *)
Definition applyDraft (draft : FormFields) (todo : Todo) : Todo :=
  mkTodo (id todo) (trim (form_text draft)) (form_category draft)
         (form_priority draft) (form_dueDate draft) (completed todo).

(** [editingId === id] for [editingId : string | null]. *)
Definition editingIs (editingId : option jsstring) (i : jsstring) : bool :=
  match editingId with
  | Some e => str_eqb e i
  | None => false
  end.

Module Local.

(** The [useState] cells the handlers read and write (the filter and sort
    selectors are arguments of the view). *)
Record State := mkState {
  todos : list Todo;
  form : FormFields;
  editingId : option jsstring;
  editForm : FormFields;
  fieldEditing : option FieldEditing;
  fieldEditValue : jsstring
}.

Definition initialState : State :=
  mkState [] emptyForm None emptyForm None [].

Definition setTodos (f : list Todo -> list Todo) (s : State) : State :=
  mkState (f (todos s)) (form s) (editingId s) (editForm s)
          (fieldEditing s) (fieldEditValue s).

Definition setForm (v : FormFields) (s : State) : State :=
  mkState (todos s) v (editingId s) (editForm s)
          (fieldEditing s) (fieldEditValue s).

Definition setEditingId (v : option jsstring) (s : State) : State :=
  mkState (todos s) (form s) v (editForm s)
          (fieldEditing s) (fieldEditValue s).

Definition setEditForm (v : FormFields) (s : State) : State :=
  mkState (todos s) (form s) (editingId s) v
          (fieldEditing s) (fieldEditValue s).

Definition setFieldEditing (v : option FieldEditing) (s : State) : State :=
  mkState (todos s) (form s) (editingId s) (editForm s) v (fieldEditValue s).

Definition setFieldEditValue (v : jsstring) (s : State) : State :=
  mkState (todos s) (form s) (editingId s) (editForm s) (fieldEditing s) v.

Definition resetForm (s : State) : State := setForm emptyForm s.

(** [addTodo]; [uuid] is the value [crypto.randomUUID()] returns. *)
Definition addTodo (uuid : jsstring) (s : State) : State :=
  if str_eqb (trim (form_text (form s))) [] then s
  else
    let newTodo :=
      {| id := uuid;
         text := trim (form_text (form s));
         category := form_category (form s);
         priority := form_priority (form s);
         dueDate := form_dueDate (form s);
         completed := false |} in
    resetForm (setTodos (fun prev => prev ++ [newTodo]) s).

(** [toggleTodo] *)
Definition toggleTodo (i : jsstring) (s : State) : State :=
  setTodos
    (fun prev =>
       List.map (fun todo =>
                   if str_eqb (id todo) i
                   then setCompleted (negb (completed todo)) todo
                   else todo) prev) s.

(** [deleteTodo] *)
Definition deleteTodo (i : jsstring) (s : State) : State :=
  let s1 :=
    setTodos (fun prev =>
                List.filter (fun todo => negb (str_eqb (id todo) i)) prev) s in
  if editingIs (editingId s) i then setEditingId None s1 else s1.

Definition startEditing (todo : Todo) (s : State) : State :=
  setEditForm (mkForm (text todo) (category todo) (priority todo) (dueDate todo))
              (setEditingId (Some (id todo)) s).

Definition cancelEditing (s : State) : State := setEditingId None s.

(** [saveEditing] *)
Definition saveEditing (i : jsstring) (s : State) : State :=
  if str_eqb (trim (form_text (editForm s))) [] then s
  else
    setEditingId None
      (setTodos
         (fun prev =>
            List.map (fun todo =>
                        if str_eqb (id todo) i
                        then applyDraft (editForm s) todo else todo) prev) s).

Definition startFieldEditing (todo : Todo) (field : EditField) (s : State)
  : State :=
  let s1 := setFieldEditing (Some (mkFieldEditing (id todo) field)) s in
  match field with
  | FieldCategory => setFieldEditValue (category todo) s1
  | FieldPriority => setFieldEditValue (priorityString (priority todo)) s1
  | FieldDueDate => setFieldEditValue (dueDate todo) s1
  end.

Definition cancelFieldEditing (s : State) : State :=
  setFieldEditValue [] (setFieldEditing None s).

(** [saveFieldEditing] *)
Definition saveFieldEditing (s : State) : State :=
  match fieldEditing s with
  | None => s
  | Some fe =>
    let value := fieldEditValue s in
    setFieldEditValue []
      (setFieldEditing None
         (setTodos
            (fun prev =>
               List.map (fun todo =>
                           if str_eqb (id todo) (fe_id fe)
                           then setField (fe_field fe) value todo
                           else todo) prev) s))
  end.

End Local.

(* ================================================================== *)
(** ** Mutation handlers of the persisted page *)
(* ================================================================== *)

Module Persisted.

(** [type FeedbackMessage = { type: "error" | "success"; message: string }] *)
Inductive FeedbackType := error | success.

Record FeedbackMessage := mkFeedback {
  fb_type : FeedbackType;
  fb_message : jsstring
}.

(** The auth provider's session object; the handlers only test it for
    presence. *)
Record Session := mkSession { user_email : jsstring }.

(** A row of the remote [todos] table as the handlers read it. *)
Record Row := mkRow {
  row_id : jsstring;
  row_text : jsstring;
  row_category : jsstring;
  row_priority : Priority;
  row_due_date : option jsstring;
  row_completed : bool
}.

(** One column of an [insert] or [update] payload. *)
Inductive Column :=
| col_text (v : jsstring)
| col_category (v : jsstring)
| col_priority (v : jsstring)
| col_due_date (v : option jsstring)
| col_completed (v : bool).

(** The remote writes the handlers issue. *)
Inductive Request :=
| Insert (payload : list Column)            (* .insert(payload).select("*").single() *)
| Update (i : jsstring) (payload : list Column)  (* .update(payload).eq("id", i) *)
| Delete (i : jsstring).                    (* .delete().eq("id", i) *)

(** [{ data, error }]: an error, or success with the row [single()]
    selected ([None] where the call selects nothing). *)
Inductive Response :=
| Failure (err : jsstring)
| Success (data : option Row).

Record State := mkState {
  todos : list Todo;
  form : FormFields;
  editingId : option jsstring;
  editForm : FormFields;
  fieldEditing : option FieldEditing;
  fieldEditValue : jsstring;
  isSubmitting : bool;
  feedback : option FeedbackMessage;
  session : option Session
}.

Definition setTodos (f : list Todo -> list Todo) (s : State) : State :=
  mkState (f (todos s)) (form s) (editingId s) (editForm s) (fieldEditing s)
          (fieldEditValue s) (isSubmitting s) (feedback s) (session s).

Definition setForm (v : FormFields) (s : State) : State :=
  mkState (todos s) v (editingId s) (editForm s) (fieldEditing s)
          (fieldEditValue s) (isSubmitting s) (feedback s) (session s).

Definition setEditingId (v : option jsstring) (s : State) : State :=
  mkState (todos s) (form s) v (editForm s) (fieldEditing s)
          (fieldEditValue s) (isSubmitting s) (feedback s) (session s).

Definition setFieldEditing (v : option FieldEditing) (s : State) : State :=
  mkState (todos s) (form s) (editingId s) (editForm s) v
          (fieldEditValue s) (isSubmitting s) (feedback s) (session s).

Definition setFieldEditValue (v : jsstring) (s : State) : State :=
  mkState (todos s) (form s) (editingId s) (editForm s) (fieldEditing s)
          v (isSubmitting s) (feedback s) (session s).

Definition setIsSubmitting (v : bool) (s : State) : State :=
  mkState (todos s) (form s) (editingId s) (editForm s) (fieldEditing s)
          (fieldEditValue s) v (feedback s) (session s).

Definition setFeedback (v : option FeedbackMessage) (s : State) : State :=
  mkState (todos s) (form s) (editingId s) (editForm s) (fieldEditing s)
          (fieldEditValue s) (isSubmitting s) v (session s).

Definition resetForm (s : State) : State := setForm emptyForm s.

(** [mapRowToTodo]; [row.due_date ?? ""]. *)
Definition mapRowToTodo (row : Row) : Todo :=
  {| id := row_id row;
     text := row_text row;
     category := row_category row;
     priority := row_priority row;
     dueDate := match row_due_date row with Some d => d | None => [] end;
     completed := row_completed row |}.

(** [reportError]: sets the feedback (the console log is not modelled). *)
Definition reportError (message : jsstring) (s : State) : State :=
  setFeedback (Some (mkFeedback error message)) s.

(** [v || null] for a string. *)
Definition orNull (v : jsstring) : option jsstring :=
  if truthy v then Some v else None.

(** A handler up to its [await]: it either finishes at once, or stops at a
    remote write with the state it has set so far; the continuation runs
    on the state current when the response arrives, so functional updates
    ([setTodos((prev) => ...)]) see that state while values read before the
    [await] are the captured ones. *)
Inductive Op :=
| Done (s : State)
| Await (s : State) (req : Request) (k : Response -> State -> State).

(** Running a handler with nothing else happening during the [await]. *)
Definition run (remote : Request -> Response) (op : Op) : State :=
  match op with
  | Done s => s
  | Await s req k => k (remote req) s
  end.

Definition msgAddNeedsLogin : jsstring :=
  js "로그인 후 할일을 추가할 수 있습니다.".
Definition msgAddFailed : jsstring :=
  js "할일을 추가하지 못했습니다. 잠시 후 다시 시도해주세요.".
Definition msgToggleFailed : jsstring :=
  js "상태를 변경하지 못했습니다. 잠시 후 다시 시도해주세요.".
Definition msgDeleteFailed : jsstring :=
  js "할일을 삭제하지 못했습니다. 잠시 후 다시 시도해주세요.".
Definition msgSaveFailed : jsstring :=
  js "할일을 수정하지 못했습니다. 잠시 후 다시 시도해주세요.".
Definition msgFieldFailed : jsstring :=
  js "필드를 수정하지 못했습니다. 잠시 후 다시 시도해주세요.".

(** [addTodo].  On success without a row [mapRowToTodo(data)] reads a
    property of [null] and the handler stops there. *)
Definition addTodo (s : State) : Op :=
  match session s with
  | None => Done (reportError msgAddNeedsLogin s)
  | Some _ =>
    if str_eqb (trim (form_text (form s))) [] || isSubmitting s then Done s
    else
      Await (setIsSubmitting true s)
        (Insert [ col_text (trim (form_text (form s)));
                  col_category (form_category (form s));
                  col_priority (priorityString (form_priority (form s)));
                  col_due_date (orNull (form_dueDate (form s)));
                  col_completed false ])
        (fun resp s' =>
           match resp with
           | Failure _ => setIsSubmitting false (reportError msgAddFailed s')
           | Success None => s'
           | Success (Some data) =>
             setIsSubmitting false
               (setFeedback None
                  (resetForm
                     (setTodos (fun prev => mapRowToTodo data :: prev) s')))
           end)
  end.

(** [toggleTodo]; [c] is the [completed] argument. *)
Definition toggleTodo (i : jsstring) (c : bool) (s : State) : Op :=
  match session s with
  | None => Done s
  | Some _ =>
    Await s (Update i [ col_completed (negb c) ])
      (fun resp s' =>
         match resp with
         | Failure _ => reportError msgToggleFailed s'
         | Success _ =>
           setTodos
             (fun prev =>
                List.map (fun todo =>
                            if str_eqb (id todo) i
                            then setCompleted (negb c) todo else todo) prev) s'
         end)
  end.

(** [deleteTodo]; [editingId] is read from the render the handler was
    created in. *)
Definition deleteTodo (i : jsstring) (s : State) : Op :=
  match session s with
  | None => Done s
  | Some _ =>
    Await s (Delete i)
      (fun resp s' =>
         match resp with
         | Failure _ => reportError msgDeleteFailed s'
         | Success _ =>
           let s1 :=
             setTodos
               (fun prev =>
                  List.filter (fun todo => negb (str_eqb (id todo) i)) prev)
               s' in
           if editingIs (editingId s) i then setEditingId None s1 else s1
         end)
  end.

(** [saveEditing] *)
Definition saveEditing (i : jsstring) (s : State) : Op :=
  match session s with
  | None => Done s
  | Some _ =>
    if str_eqb (trim (form_text (editForm s))) [] then Done s
    else
      Await s
        (Update i [ col_text (trim (form_text (editForm s)));
                    col_category (form_category (editForm s));
                    col_priority (priorityString (form_priority (editForm s)));
                    col_due_date (orNull (form_dueDate (editForm s))) ])
        (fun resp s' =>
           match resp with
           | Failure _ => reportError msgSaveFailed s'
           | Success _ =>
             setEditingId None
               (setTodos
                  (fun prev =>
                     List.map (fun todo =>
                                 if str_eqb (id todo) i
                                 then applyDraft (editForm s) todo
                                 else todo) prev) s')
           end)
  end.

(** [saveFieldEditing] *)
Definition saveFieldEditing (s : State) : Op :=
  match fieldEditing s with
  | None => Done s
  | Some fe =>
    match session s with
    | None => Done s
    | Some _ =>
      let value := fieldEditValue s in
      let payload :=
        match fe_field fe with
        | FieldDueDate => [ col_due_date (orNull value) ]
        | FieldCategory => [ col_category value ]
        | FieldPriority => [ col_priority value ]
        end in
      Await s (Update (fe_id fe) payload)
        (fun resp s' =>
           match resp with
           | Failure _ => reportError msgFieldFailed s'
           | Success _ =>
             setFieldEditValue []
               (setFieldEditing None
                  (setTodos
                     (fun prev =>
                        List.map (fun todo =>
                                    if str_eqb (id todo) (fe_id fe)
                                    then setField (fe_field fe) value todo
                                    else todo) prev) s'))
           end)
    end
  end.

Definition setEditForm (v : FormFields) (s : State) : State :=
  mkState (todos s) (form s) (editingId s) v (fieldEditing s)
          (fieldEditValue s) (isSubmitting s) (feedback s) (session s).

Definition startEditing (todo : Todo) (s : State) : State :=
  setEditForm (mkForm (text todo) (category todo) (priority todo) (dueDate todo))
              (setEditingId (Some (id todo)) s).

Definition cancelEditing (s : State) : State := setEditingId None s.

Definition startFieldEditing (todo : Todo) (field : EditField) (s : State)
  : State :=
  let s1 := setFieldEditing (Some (mkFieldEditing (id todo) field)) s in
  match field with
  | FieldCategory => setFieldEditValue (category todo) s1
  | FieldPriority => setFieldEditValue (priorityString (priority todo)) s1
  | FieldDueDate => setFieldEditValue (dueDate todo) s1
  end.

Definition cancelFieldEditing (s : State) : State :=
  setFieldEditValue [] (setFieldEditing None s).

(** The five mutations of the page. *)
Inductive Mutation :=
| MCreate
| MToggle (i : jsstring) (c : bool)
| MDelete (i : jsstring)
| MSaveRow (i : jsstring)
| MSaveField.

Definition perform (m : Mutation) (s : State) : Op :=
  match m with
  | MCreate => addTodo s
  | MToggle i c => toggleTodo i c s
  | MDelete i => deleteTodo i s
  | MSaveRow i => saveEditing i s
  | MSaveField => saveFieldEditing s
  end.

(** A store that answers an insert with the row it stored: the payload's
    columns under the id [i]. *)
Definition echoes (payload : list Column) (i : jsstring) (row : Row) : Prop :=
  row_id row = i /\
  payload = [ col_text (row_text row);
              col_category (row_category row);
              col_priority (priorityString (row_priority row));
              col_due_date (row_due_date row);
              col_completed (row_completed row) ].

(** A store that accepts every write, and answers an insert with the row
    it stored under the id [i]. *)
Definition rowOfPayload (i : jsstring) (payload : list Column) : option Row :=
  match payload with
  | [ col_text t; col_category c; col_priority p; col_due_date d;
      col_completed b ] =>
    match priorityOfString p with
    | Some p' => Some (mkRow i t c p' d b)
    | None => None
    end
  | _ => None
  end.

Definition acceptingStore (i : jsstring) (req : Request) : Response :=
  match req with
  | Insert payload => Success (rowOfPayload i payload)
  | Update _ _ => Success None
  | Delete _ => Success None
  end.

(** A store that refuses every write. *)
Definition refusingStore (req : Request) : Response :=
  Failure (js "network error").

(** A signed-in page showing the three tasks of the scenario. *)
Definition scenarioState (todos : list Todo) : State :=
  mkState todos emptyForm None emptyForm None [] false None
          (Some (mkSession (js "user@example.com"))).

End Persisted.

(* ================================================================== *)
(** ** The controls of the in-memory page *)
(* ================================================================== *)

Module LocalPage.

(** A change a form control hands to [handleCreateChange] or
    [handleEditChange]: the field name together with the value the control
    produces for it (the priority select casts its value to [Priority]). *)
Inductive FormChange :=
| changeText (v : jsstring)
| changeCategory (v : jsstring)
| changePriority (v : Priority)
| changeDueDate (v : jsstring).

(** [{ ...prev, [field]: value }] *)
Definition updateForm (c : FormChange) (prev : FormFields) : FormFields :=
  match c with
  | changeText v =>
    mkForm v (form_category prev) (form_priority prev) (form_dueDate prev)
  | changeCategory v =>
    mkForm (form_text prev) v (form_priority prev) (form_dueDate prev)
  | changePriority v =>
    mkForm (form_text prev) (form_category prev) v (form_dueDate prev)
  | changeDueDate v =>
    mkForm (form_text prev) (form_category prev) (form_priority prev) v
  end.

(** [handleCreateChange] *)
Definition handleCreateChange (c : FormChange) (s : Local.State) : Local.State :=
  Local.setForm (updateForm c (Local.form s)) s.

(** [handleEditChange] *)
Definition handleEditChange (c : FormChange) (s : Local.State) : Local.State :=
  Local.setEditForm (updateForm c (Local.editForm s)) s.

(** What the user can do on the page: each control with the handler call
    its JSX attribute makes.  [AddTodo] is the add button and the Enter
    key of the text input ([handleKeyPress]); its argument is the id
    [crypto.randomUUID()] returns. *)
Inductive Event :=
| CreateChange (c : FormChange)
| AddTodo (uuid : jsstring)
| ToggleTodo (i : jsstring)
| DeleteTodo (i : jsstring)
| StartEditing (todo : Todo)
| EditChange (c : FormChange)
| CancelEditing
| SaveEditing (i : jsstring)
| StartFieldEditing (todo : Todo) (field : EditField)
| FieldEditValue (v : jsstring)
| CancelFieldEditing
| SaveFieldEditing.

Definition fire (e : Event) (s : Local.State) : Local.State :=
  match e with
  | CreateChange c => handleCreateChange c s
  | AddTodo uuid => Local.addTodo uuid s
  | ToggleTodo i => Local.toggleTodo i s
  | DeleteTodo i => Local.deleteTodo i s
  | StartEditing todo => Local.startEditing todo s
  | EditChange c => handleEditChange c s
  | CancelEditing => Local.cancelEditing s
  | SaveEditing i => Local.saveEditing i s
  | StartFieldEditing todo field => Local.startFieldEditing todo field s
  | FieldEditValue v => Local.setFieldEditValue v s
  | CancelFieldEditing => Local.cancelFieldEditing s
  | SaveFieldEditing => Local.saveFieldEditing s
  end.

Section Offered.

(** [new Date(s).getTime()], as in the derived view. *)
Variable Date_getTime : jsstring -> option Z.

(** The value of a date input: empty, or a date the host reads. *)
Definition dateInputValue (v : jsstring) : Prop :=
  truthy v = true -> is_Some (Date_getTime v).

(** The values a form control produces: the category select offers
    [categoryOptions], the date input a date or nothing, the text input
    any string. *)
Definition changeOffered (c : FormChange) : Prop :=
  match c with
  | changeText _ => True
  | changeCategory v => In v categoryOptions
  | changePriority _ => True
  | changeDueDate v => dateInputValue v
  end.

(** The values the editor of a single field produces for that field. *)
Definition fieldValueOffered (field : EditField) (v : jsstring) : Prop :=
  match field with
  | FieldCategory => In v categoryOptions
  | FieldPriority => exists p, v = priorityString p
  | FieldDueDate => dateInputValue v
  end.

(** When the page offers an event in a state.  Row controls act on a task
    of the collection (the rows are those of the derived view); the editor
    of a field is there only while a single-field session is open; a
    generated id is new.  Controls the page shows only in some states
    (save and cancel of a row, the disabled field chips of a row under
    edit) are taken as always there. *)
Definition offered (s : Local.State) (e : Event) : Prop :=
  match e with
  | CreateChange c => changeOffered c
  | EditChange c => changeOffered c
  | AddTodo uuid => ~ In uuid (List.map id (Local.todos s))
  | StartEditing todo => In todo (Local.todos s)
  | StartFieldEditing todo _ => In todo (Local.todos s)
  | FieldEditValue v =>
    exists fe, Local.fieldEditing s = Some fe
               /\ fieldValueOffered (fe_field fe) v
  | ToggleTodo _ | DeleteTodo _ | SaveEditing _
  | CancelEditing | CancelFieldEditing | SaveFieldEditing => True
  end.

(** The states the page can be in. *)
Inductive reachable : Local.State -> Prop :=
| reachable_initial : reachable Local.initialState
| reachable_fire s e :
    reachable s -> offered s e -> reachable (fire e s).

(** A form holds values its controls offer. *)
Definition formOffered (f : FormFields) : Prop :=
  In (form_category f) categoryOptions /\ dateInputValue (form_dueDate f).

(** A stored task is as the data model wants it: a non-empty trimmed
    text, an enumerated category, a due date that is a date or absent. *)
Definition taskWellFormed (t : Todo) : Prop :=
  text t <> [] /\ trim (text t) = text t
  /\ In (category t) categoryOptions
  /\ dateInputValue (dueDate t).

(** The invariant of the page state. *)
Definition wellFormed (s : Local.State) : Prop :=
  List.NoDup (List.map id (Local.todos s))
  /\ (forall t, In t (Local.todos s) -> taskWellFormed t)
  /\ formOffered (Local.form s)
  /\ formOffered (Local.editForm s)
  /\ (forall fe, Local.fieldEditing s = Some fe ->
                 fieldValueOffered (fe_field fe) (Local.fieldEditValue s)).

End Offered.
End LocalPage.

(* ================================================================== *)
(** ** What the list panel shows *)
(* ================================================================== *)

(** The branches of the list card: the loading notice (persisted page
    only), the notice of an empty collection, the notice that no task
    matches the filter, or the rows of the derived view. *)
Inductive Panel :=
| PanelLoading
| PanelEmpty
| PanelNoMatch
| PanelRows (rows : list Todo).

(** [isLoading ? ... : todos.length === 0 ? ... :
    filteredAndSortedTodos.length === 0 ? ... : filteredAndSortedTodos.map(...)];
    the in-memory page has no [isLoading] and starts at the second test. *)
Definition listPanel (isLoading : bool) (todos view : list Todo) : Panel :=
  if isLoading then PanelLoading
  else if (length todos =? 0)%nat then PanelEmpty
  else if (length view =? 0)%nat then PanelNoMatch
  else PanelRows view.

(** [catProgress] of the category panel:
    [stats.total > 0 ? Math.round((stats.completed / stats.total) * 100) : 0]. *)
Definition catProgress (stats : CategoryStat) : spec_float :=
  if (0 <? stat_total stats)%nat then
    Math_round
      (f64_mul
         (f64_div (f64_of_Z (Z.of_nat (stat_completed stats)))
                  (f64_of_Z (Z.of_nat (stat_total stats))))
         (f64_of_Z 100))
  else f64_of_Z 0.

(* ================================================================== *)
(** ** Session, fetch and authentication of the persisted page *)
(* ================================================================== *)

(** [pattern] occurs in [s] from its first code unit on. *)
Fixpoint startsWith (pattern s : jsstring) : bool :=
  match pattern, s with
  | [], _ => true
  | _ :: _, [] => false
  | p :: pattern', c :: s' => (p =? c)%N && startsWith pattern' s'
  end.

(** [s.includes(pattern)] *)
Fixpoint includes (pattern s : jsstring) : bool :=
  match s with
  | [] => startsWith pattern []
  | _ :: s' => startsWith pattern s || includes pattern s'
  end.

Module PersistedPage.

(** The page state: the cells of [Persisted.State] together with the
    loading flag and the cells of the sign-in form. *)
Record Page := mkPage {
  core : Persisted.State;
  isLoading : bool;
  authEmail : jsstring;
  authPassword : jsstring;
  authLoading : bool
}.

(** The state [useState] gives the page: no session, loading. *)
Definition initialPage : Page :=
  mkPage (Persisted.mkState [] emptyForm None emptyForm None [] false None None)
         true [] [] false.

Definition onCore (f : Persisted.State -> Persisted.State) (p : Page) : Page :=
  mkPage (f (core p)) (isLoading p) (authEmail p) (authPassword p)
         (authLoading p).

Definition setIsLoading (v : bool) (p : Page) : Page :=
  mkPage (core p) v (authEmail p) (authPassword p) (authLoading p).

Definition setAuthLoading (v : bool) (p : Page) : Page :=
  mkPage (core p) (isLoading p) (authEmail p) (authPassword p) v.

Definition setSession (v : option Persisted.Session) (s : Persisted.State)
  : Persisted.State :=
  Persisted.mkState (Persisted.todos s) (Persisted.form s)
    (Persisted.editingId s) (Persisted.editForm s) (Persisted.fieldEditing s)
    (Persisted.fieldEditValue s) (Persisted.isSubmitting s)
    (Persisted.feedback s) v.

(** The error object of the auth provider; [error.message] may be
    missing. *)
Record AuthError := mkAuthError { message : option jsstring }.

(** ["signin" | "signup"] *)
Inductive AuthMode := signin | signup.

(** The calls to the auth provider. *)
Inductive AuthCall :=
| SignInWithPassword (email password : jsstring)
| SignUp (email password : jsstring)
| SignOut.

(** A handler up to its [await]: done, waiting for the rows of
    [from("todos").select("*").order("created_at", { ascending: false })]
    (answered with [data] and [error]), or waiting for the auth provider
    (answered with [error]).  Continuations run on the page state current
    at the answer. *)
Inductive PageOp :=
| PDone (p : Page)
| AwaitSelect (p : Page)
    (k : option (list Persisted.Row) -> option jsstring -> Page -> Page)
| AwaitAuth (p : Page) (call : AuthCall)
    (k : option AuthError -> Page -> Page).

Definition msgFetchFailed : jsstring :=
  js "할일을 불러오지 못했습니다. 잠시 후 다시 시도해주세요.".
Definition msgNeedCredentials : jsstring :=
  js "이메일과 비밀번호를 입력해주세요.".
Definition msgWeakPassword : jsstring :=
  js "비밀번호가 너무 짧거나 정책에 맞지 않습니다. 최소 6자 이상 입력해주세요.".
Definition msgAlreadyRegistered : jsstring :=
  js "이미 등록된 이메일입니다. 로그인으로 이동해주세요.".
Definition msgNotConfirmed : jsstring :=
  js "이메일 인증이 완료되지 않았습니다. 받은 메일에서 인증 링크를 확인해주세요.".
Definition msgSignInFailed : jsstring :=
  js "로그인에 실패했습니다. 이메일/비밀번호를 확인해주세요.".
Definition msgSignUpFailed : jsstring :=
  js "회원가입에 실패했습니다. 다시 시도해주세요.".
Definition msgSignedIn : jsstring :=
  js "로그인에 성공했습니다.".
Definition msgSignedUp : jsstring :=
  js "회원가입이 완료되었습니다. 받은 메일의 안내에 따라 인증을 완료해주세요.".
Definition msgSignedOut : jsstring :=
  js "로그아웃되었습니다.".

(** [fetchTodos]; [(data ?? []).map(mapRowToTodo)]. *)
Definition fetchTodos (p : Page) : PageOp :=
  AwaitSelect (setIsLoading true p)
    (fun data err p' =>
       match err with
       | Some _ =>
         setIsLoading false (onCore (Persisted.reportError msgFetchFailed) p')
       | None =>
         let mapped :=
           List.map Persisted.mapRowToTodo
                    (match data with Some rows => rows | None => [] end) in
         setIsLoading false
           (onCore (Persisted.setFeedback None)
              (onCore (Persisted.setTodos (fun _ => mapped)) p'))
       end).

(** The listener of [onAuthStateChange] and the result of [getSession]:
    [setSession(newSession)]. *)
Definition sessionChanged (newSession : option Persisted.Session) (p : Page)
  : Page :=
  onCore (setSession newSession) p.

(** The effect on [session]: fetch when there is one, otherwise clear the
    collection and the loading flag. *)
Definition sessionEffect (p : Page) : PageOp :=
  match Persisted.session (core p) with
  | Some _ => fetchTodos p
  | None =>
    PDone (setIsLoading false (onCore (Persisted.setTodos (fun _ => [])) p))
  end.

(** [handleSignOut]; the answer of [signOut] is not looked at. *)
Definition handleSignOut (p : Page) : PageOp :=
  AwaitAuth p SignOut
    (fun _ p' =>
       onCore (Persisted.setFeedback
                 (Some (Persisted.mkFeedback Persisted.success msgSignedOut)))
         (onCore (Persisted.setTodos (fun _ => [])) p')).

Section HandleAuth.

(** [String.prototype.toLowerCase], the host's. *)
Variable toLowerCase : jsstring -> jsstring.

(** [error.message?.toLowerCase().includes(pattern)]: a missing message
    makes the chain [undefined], which the test takes as false. *)
Definition messageIncludes (e : AuthError) (pattern : jsstring) : bool :=
  match message e with
  | Some m => includes pattern (toLowerCase m)
  | None => false
  end.

(** The message [handleAuth] reports for an error, by its tests in their
    order. *)
Definition authErrorMessage (mode : AuthMode) (e : AuthError) : jsstring :=
  match mode with
  | signup =>
    if messageIncludes e (js "password") then msgWeakPassword
    else if messageIncludes e (js "already registered")
         then msgAlreadyRegistered
    else msgSignUpFailed
  | signin =>
    if messageIncludes e (js "email not confirmed") then msgNotConfirmed
    else msgSignInFailed
  end.

(** [handleAuth] *)
Definition handleAuth (mode : AuthMode) (p : Page) : PageOp :=
  if negb (truthy (authEmail p)) || negb (truthy (authPassword p)) then
    PDone (onCore (Persisted.reportError msgNeedCredentials) p)
  else
    AwaitAuth (setAuthLoading true p)
      (match mode with
       | signin => SignInWithPassword (authEmail p) (authPassword p)
       | signup => SignUp (authEmail p) (authPassword p)
       end)
      (fun err p' =>
         let p1 := setAuthLoading false p' in
         match err with
         | Some e =>
           onCore (Persisted.reportError (authErrorMessage mode e)) p1
         | None =>
           onCore (Persisted.setFeedback
                     (Some (Persisted.mkFeedback Persisted.success
                              (match mode with
                               | signin => msgSignedIn
                               | signup => msgSignedUp
                               end)))) p1
         end).

End HandleAuth.
End PersistedPage.

(* ================================================================== *)
(** ** Vocabulary of the statements *)
(* ================================================================== *)

(** [!todo.dueDate] *)
Definition noDueDate (todo : Todo) : bool := negb (truthy (dueDate todo)).

(** Every due date that is present is one the host's [Date] can read. *)
Definition validDueDates (Date_getTime : jsstring -> option Z)
  (todos : list Todo) : Prop :=
  forall t, In t todos -> noDueDate t = false ->
            is_Some (Date_getTime (dueDate t)).

(** Every task with a due date stands before every task without one. *)
Definition undatedLast (view : list Todo) : Prop :=
  forall (i j : nat) (a b : Todo),
    view !! i = Some a -> view !! j = Some b ->
    noDueDate a = false -> noDueDate b = true -> (i < j)%nat.

(** Tasks with due dates stand in non-decreasing order of their dates. *)
Definition datedAscending (Date_getTime : jsstring -> option Z)
  (view : list Todo) : Prop :=
  forall (i j : nat) (a b : Todo) (ta tb : Z),
    (i < j)%nat -> view !! i = Some a -> view !! j = Some b ->
    noDueDate a = false -> noDueDate b = false ->
    Date_getTime (dueDate a) = Some ta ->
    Date_getTime (dueDate b) = Some tb ->
    ta <= tb.

(** The tasks without a due date stand in the order the input has them. *)
Definition undatedOrderKept (input view : list Todo) : Prop :=
  List.filter noDueDate view = List.filter noDueDate input.

(** The order the date comparator sorts by: a task without a due date is
    above every task, tasks with due dates compare by their times. *)
Definition dateLe (Date_getTime : jsstring -> option Z) (a b : Todo) : Prop :=
  noDueDate b = true
  \/ (noDueDate a = false /\ noDueDate b = false
      /\ exists ta tb, Date_getTime (dueDate a) = Some ta
                       /\ Date_getTime (dueDate b) = Some tb /\ ta <= tb).

(** A task of higher rank stands before every task of lower rank. *)
Definition higherPriorityFirst (view : list Todo) : Prop :=
  forall (i j : nat) (a b : Todo),
    view !! i = Some a -> view !! j = Some b ->
    priorityOrder (priority b) < priorityOrder (priority a) -> (i < j)%nat.

(** The three tasks of the specification's scenario. *)
Definition buyMilk : Todo :=
  mkTodo (js "1") (js "Buy milk") (js "개인") low [] false.
Definition finishReport : Todo :=
  mkTodo (js "2") (js "Finish report") (js "업무") high (js "2024-01-10") false.
Definition reviewPR : Todo :=
  mkTodo (js "3") (js "Review PR") (js "업무") medium (js "2024-01-05") false.
Definition scenario : list Todo := [buyMilk; finishReport; reviewPR].

(** The tasks whose category is none of the enumerated ones. *)
Definition outsideCount (todos : list Todo) : nat :=
  length (List.filter
            (fun t => negb (bool_decide (category t ∈ categoryOptions))) todos).

(** The statistics object has exactly the enumerated categories as keys. *)
Definition enumeratedKeys (stats : gmap jsstring CategoryStat) : Prop :=
  forall c, is_Some (stats !! c) <-> In c categoryOptions.

(** The percentage as the specification words it,
    [round(completed / total * 100)] and [0] for an empty collection, in
    exact arithmetic: the integer nearest to [100 * completed / total],
    a half rounding up. *)
Definition roundedPercentage (len completedCount : nat) : Z :=
  if (len =? 0)%nat then 0
  else (200 * Z.of_nat completedCount + Z.of_nat len) / (2 * Z.of_nat len).

(** Equality test on binary64 values as data. *)
Definition sf_eqb (x y : spec_float) : bool :=
  match x, y with
  | S754_zero a, S754_zero b => Bool.eqb a b
  | S754_infinity a, S754_infinity b => Bool.eqb a b
  | S754_nan, S754_nan => true
  | S754_finite a m e, S754_finite b n f =>
    Bool.eqb a b && (m =? n)%positive && (e =? f)
  | _, _ => false
  end.

(** The computed percentage agrees with the exact one for every
    collection of fewer than [bound] tasks. *)
Definition agreesBelow (bound : nat) : bool :=
  forallb
    (fun len =>
       forallb
         (fun c => sf_eqb (progressPercentageOf len c)
                          (f64_of_Z (roundedPercentage len c)))
         (seq 0 (S len)))
    (seq 0 bound).

(** A collection of [len] tasks of which the first [c] are completed. *)
Definition tasks (len c : nat) : list Todo :=
  repeat (mkTodo [] (js "t") defaultCategory medium [] true) c
  ++ repeat (mkTodo [] (js "t") defaultCategory medium [] false) (len - c).

(** What the specification says a created task is: the trimmed text, the
    other submitted fields, not completed. *)
Definition createdFrom (f : FormFields) (t : Todo) : Prop :=
  text t = trim (form_text f)
  /\ category t = form_category f
  /\ priority t = form_priority f
  /\ dueDate t = form_dueDate f
  /\ completed t = false.

(** The collection [after] is [before] with one created task appended. *)
Definition appendsOne (f : FormFields) (before after : list Todo) : Prop :=
  exists t, after = before ++ [t] /\ createdFrom f t.

(** The create form filled in with a text in blanks. *)
Definition walkDogForm : FormFields :=
  mkForm (js "  Walk dog ") (js "개인") high (js "2024-02-01").

(** The update [toggleTodo] maps over the collection. *)
Definition flipIf (i : jsstring) (todo : Todo) : Todo :=
  if str_eqb (id todo) i then setCompleted (negb (completed todo)) todo
  else todo.

(** The update the persisted [toggleTodo] maps over the collection. *)
Definition setIf (i : jsstring) (c : bool) (todo : Todo) : Todo :=
  if str_eqb (id todo) i then setCompleted c todo else todo.

(** [l] is an array the memo allocated: it holds [arr], it was not
    allocated in the store [σ0] the memo started from, and every array of
    [σ0] is as it was. *)
Definition ownsCopy (σ0 σ : gmap positive (list Todo)) (l : positive) (arr : list Todo) : Prop :=
  σ !! l = Some arr
  /\ σ0 !! l = None
  /\ forall l0, is_Some (σ0 !! l0) -> σ !! l0 = σ0 !! l0.

(** No step of the statistics loop reads a record that is missing: every
    [stats[todo.category]] is a record the computation initialised. *)
Fixpoint hitsOnlyRecords (todos : list Todo)
  (stats : gmap jsstring CategoryStat) : bool :=
  match todos with
  | [] => true
  | todo :: rest =>
    match stats_get stats (category todo), countTodo stats todo with
    | OwnRecord _, Returned stats' => hitsOnlyRecords rest stats'
    | _, _ => false
    end
  end.

(** A collation that orders: what it does not put after is transitive, and
    it never puts each of two strings after the other. *)
Definition collationConsistent (localeCompare : jsstring -> jsstring -> Z)
  : Prop :=
  (forall a b c, localeCompare a b <= 0 -> localeCompare b c <= 0 ->
                 localeCompare a c <= 0)
  /\ (forall a b, 0 < localeCompare a b -> localeCompare b a <= 0).

(** What a sort key needs for its comparator to be consistent on a
    collection: readable due dates for [date], an ordering collation for
    [category] and [name], nothing for [priority]. *)
Definition sortKeyConsistent (Date_getTime : jsstring -> option Z)
  (localeCompare : jsstring -> jsstring -> Z) (sortBy : SortType)
  (todos : list Todo) : Prop :=
  match sortBy with
  | SortDate => validDueDates Date_getTime todos
  | SortPriority => True
  | SortCategory | SortName => collationConsistent localeCompare
  end.

(** The comparator does not want any two rows of the view swapped. *)
Definition inComparatorOrder (comparefn : Todo -> Todo -> option Z)
  (view : list Todo) : Prop :=
  forall (i j : nat) (a b : Todo),
    (i < j)%nat -> view !! i = Some a -> view !! j = Some b ->
    sortCompare comparefn a b <= 0.

(** A page of the in-memory variant showing the scenario's tasks. *)
Definition scenarioPage : Local.State :=
  Local.mkState scenario emptyForm None emptyForm None [].

(** The elements a sort key can compare: under [date], tasks whose due
    date, when present, is readable. *)
Definition keyReadable (Date_getTime : jsstring -> option Z)
  (sortBy : SortType) (t : Todo) : Prop :=
  match sortBy with
  | SortDate => noDueDate t = false -> is_Some (Date_getTime (dueDate t))
  | _ => True
  end.

(** Both predicates of the filter. *)
Definition passes (flt : FilterType) (categoryFilter : jsstring) (t : Todo)
  : bool :=
  statusPasses flt t && categoryPasses categoryFilter t.

(** [100 * completed / len] lies exactly halfway between two integers. *)
Definition halfway (len completedCount : nat) : bool :=
  (200 * Z.of_nat completedCount) mod (2 * Z.of_nat len) =? Z.of_nat len.

(** The computed percentage is the exact rounding, or one below it at a
    halfway point. *)
Definition percentageChecked (len c : nat) : bool :=
  let shown := progressPercentageOf len c in
  let exact := roundedPercentage len c in
  sf_eqb shown (f64_of_Z exact)
  || (sf_eqb shown (f64_of_Z (exact - 1)) && halfway len c && (1 <=? exact)).

Definition percentagesCheckedBelow (bound : nat) : bool :=
  forallb (fun len => forallb (percentageChecked len) (seq 0 (S len)))
          (seq 0 bound).

(* ================================================================== *)
(** * Properties *)
(* ================================================================== *)

(** ** The sort *)

Section ArraySortFacts.
Context {A : Type}.
Variable comparefn : A -> A -> option Z.

Lemma sort_insert_perm (x : A) (l : list A) :
  Permutation (sort_insert comparefn x l) (x :: l).
Proof.
  induction l as [| y rest IH]; simpl.
  - reflexivity.
  - destruct (0 <? sortCompare comparefn x y).
    + rewrite IH. apply perm_swap.
    + reflexivity.
Qed.

Lemma Array_sort_perm (l : list A) :
  Permutation (Array_sort comparefn l) l.
Proof.
  induction l as [| x rest IH]; simpl.
  - reflexivity.
  - rewrite sort_insert_perm. now apply perm_skip.
Qed.

Lemma Array_sort_In (l : list A) (x : A) :
  In x (Array_sort comparefn l) <-> In x l.
Proof.
  split; apply Permutation_in;
    [apply Array_sort_perm | symmetry; apply Array_sort_perm].
Qed.

Lemma Array_sort_length (l : list A) :
  length (Array_sort comparefn l) = length l.
Proof. apply Permutation_length, Array_sort_perm. Qed.

(** Sortedness, for a comparator that agrees on the elements satisfying
    [P] with a transitive relation [le]: a positive result means the
    second argument goes first, any other result that the first may stay
    first. *)
Section Consistent.
Variable P : A -> Prop.
Variable le : A -> A -> Prop.
Hypothesis le_trans :
  forall x y z, P x -> P y -> P z -> le x y -> le y z -> le x z.
Hypothesis compare_pos :
  forall x y, P x -> P y -> 0 < sortCompare comparefn x y -> le y x.
Hypothesis compare_nonpos :
  forall x y, P x -> P y -> sortCompare comparefn x y <= 0 -> le x y.

Lemma sort_insert_sorted (x : A) (l : list A) :
  P x -> Forall P l -> StronglySorted le l ->
  StronglySorted le (sort_insert comparefn x l).
Proof.
  intros Px Pl Hs. induction Hs as [| y rest Hs IH Hy]; simpl.
  - constructor; [constructor | constructor].
  - inversion Pl as [| ? ? Py Prest]; subst.
    destruct (Z.ltb_spec 0 (sortCompare comparefn x y)) as [Hpos | Hnp].
    + constructor; [now apply IH |].
      apply List.Forall_forall. intros z Hz.
      apply (Permutation_in _ (sort_insert_perm x rest)) in Hz.
      destruct Hz as [<- | Hz].
      * now apply compare_pos.
      * rewrite List.Forall_forall in Hy. now apply Hy.
    + assert (Hxy : le x y) by now apply compare_nonpos.
      constructor; [now constructor |].
      constructor; [exact Hxy |].
      rewrite List.Forall_forall in Hy, Prest |- *.
      intros z Hz. apply le_trans with y; auto.
Qed.

Lemma Array_sort_sorted (l : list A) :
  Forall P l -> StronglySorted le (Array_sort comparefn l).
Proof.
  induction l as [| x rest IH]; simpl; intros Hl.
  - constructor.
  - inversion Hl as [| ? ? Px Prest]; subst.
    apply sort_insert_sorted; [exact Px | | now apply IH].
    apply List.Forall_forall. intros z Hz. apply (proj1 (Array_sort_In _ _)) in Hz.
    rewrite List.Forall_forall in Prest. now apply Prest.
Qed.

End Consistent.

(** Stability, in the form the view needs: elements of a class [p] that
    the comparator never orders strictly keep their input order. *)
Lemma sort_insert_filter (p : A -> bool) (x : A) (l : list A) :
  (forall y, In y l -> p x = true -> p y = true ->
             sortCompare comparefn x y <= 0) ->
  List.filter p (sort_insert comparefn x l) = List.filter p (x :: l).
Proof.
  induction l as [| y rest IH]; intros Hc.
  - reflexivity.
  - simpl sort_insert.
    destruct (Z.ltb_spec 0 (sortCompare comparefn x y)) as [Hpos | Hnp].
    + assert (Hxy : p x = true -> p y = true -> False).
      { intros Hx Hy. specialize (Hc y (or_introl eq_refl) Hx Hy). lia. }
      assert (IH' : List.filter p (sort_insert comparefn x rest)
                    = List.filter p (x :: rest)).
      { apply IH. intros z Hz. apply Hc. now right. }
      simpl in *. rewrite IH'.
      destruct (p x) eqn:Ex, (p y) eqn:Ey; try reflexivity.
      exfalso. now apply Hxy.
    + reflexivity.
Qed.

Lemma Array_sort_filter_stable (p : A -> bool) (l : list A) :
  (forall x y, In x l -> In y l -> p x = true -> p y = true ->
               sortCompare comparefn x y <= 0) ->
  List.filter p (Array_sort comparefn l) = List.filter p l.
Proof.
  induction l as [| x rest IH]; intros Hc.
  - reflexivity.
  - simpl Array_sort. rewrite sort_insert_filter.
    + simpl. rewrite IH; [reflexivity |].
      intros a b Ha Hb. apply Hc; now right.
    + intros y Hy. apply Hc; [now left |].
      right. now apply (proj1 (Array_sort_In _ _)) in Hy.
Qed.

End ArraySortFacts.

(** Positions in a strongly sorted list are related. *)
Lemma StronglySorted_lookup {A} (R : A -> A -> Prop) (l : list A) :
  StronglySorted R l ->
  forall (i j : nat) (a b : A),
    (i < j)%nat -> l !! i = Some a -> l !! j = Some b -> R a b.
Proof.
  induction 1 as [| x rest Hs IH Hx]; intros i j a b Hij Ha Hb.
  - discriminate.
  - destruct j as [| j]; [lia |].
    destruct i as [| i]; simpl in *.
    + injection Ha as <-. rewrite List.Forall_forall in Hx.
      apply Hx. apply list_elem_of_In. eapply list_elem_of_lookup_2; eauto.
    + apply (IH i j); auto. lia.
Qed.

(** ** The derived view *)

Lemma filter_filter_andb {A} (f g : A -> bool) (l : list A) :
  List.filter g (List.filter f l) = List.filter (fun x => f x && g x) l.
Proof.
  induction l as [| x l IH]; simpl; [reflexivity |].
  destruct (f x); simpl; [destruct (g x) |]; now rewrite IH.
Qed.

Lemma filter_all_true {A} (f : A -> bool) (l : list A) :
  (forall x, f x = true) -> List.filter f l = l.
Proof.
  intros Hf. induction l as [| x l IH]; simpl; [reflexivity |].
  now rewrite Hf, IH.
Qed.

Lemma filterTodos_spec (flt : FilterType) (categoryFilter : jsstring)
  (todos : list Todo) :
  filterTodos flt categoryFilter todos
  = List.filter (fun t => statusPasses flt t && categoryPasses categoryFilter t)
                todos.
Proof.
  unfold filterTodos, categoryPasses.
  destruct (str_eqb categoryFilter (js "all")); simpl.
  - destruct flt; simpl.
    + symmetry. now apply filter_all_true.
    + apply List.filter_ext. intros t. now rewrite andb_true_r.
    + apply List.filter_ext. intros t. now rewrite andb_true_r.
  - destruct flt; simpl.
    + reflexivity.
    + apply filter_filter_andb.
    + apply filter_filter_andb.
Qed.

Lemma filter_partition_perm {A} (f : A -> bool) (l : list A) :
  Permutation (List.filter f l ++ List.filter (fun x => negb (f x)) l) l.
Proof.
  induction l as [| x l IH]; simpl; [reflexivity |].
  destruct (f x); simpl.
  - now apply perm_skip.
  - rewrite <- Permutation_middle. now apply perm_skip.
Qed.

Section ViewFacts.
Variable Date_getTime : jsstring -> option Z.
Variable localeCompare : jsstring -> jsstring -> Z.

Local Abbreviation view := (filteredAndSortedTodos Date_getTime localeCompare).

Lemma view_perm flt categoryFilter sortBy todos :
  Permutation (view flt categoryFilter sortBy todos)
              (filterTodos flt categoryFilter todos).
Proof. apply Array_sort_perm. Qed.

Lemma view_In flt categoryFilter sortBy todos (t : Todo) :
  In t (view flt categoryFilter sortBy todos) <->
  In t todos /\ statusPasses flt t = true
  /\ categoryPasses categoryFilter t = true.
Proof.
  unfold filteredAndSortedTodos. rewrite Array_sort_In, filterTodos_spec.
  rewrite List.filter_In, andb_true_iff. tauto.
Qed.

(** C7.  A task is in the derived view exactly when it is in the
    collection and passes both the status and the category predicate (the
    two filter calls compute the filter by their conjunction, and the
    selector value [all] passes everything); with the category selector at
    [all], the view under [completed] and the view under [pending] have no
    task in common and together hold exactly the tasks of the collection. *)
Theorem filtering_is_conjunction_and_status_partition (todos : list Todo) :
  (forall flt categoryFilter sortBy t,
      In t (view flt categoryFilter sortBy todos) <->
      In t todos /\ statusPasses flt t = true
      /\ categoryPasses categoryFilter t = true)
  /\ (forall flt categoryFilter,
         filterTodos flt categoryFilter todos
         = List.filter
             (fun t => statusPasses flt t && categoryPasses categoryFilter t)
             todos)
  /\ (forall t, statusPasses FilterAll t = true
                /\ categoryPasses (js "all") t = true)
  /\ (forall sortBy,
         let cs := view FilterCompleted (js "all") sortBy todos in
         let ps := view FilterPending (js "all") sortBy todos in
         (forall t, ~ (In t cs /\ In t ps))
         /\ (forall t, In t cs \/ In t ps <-> In t todos)
         /\ Permutation (cs ++ ps) todos
         /\ Permutation (cs ++ ps)
                        (view FilterAll (js "all") sortBy todos)).
Proof.
  split; [intros; apply view_In |].
  split; [intros; apply filterTodos_spec |].
  split; [intros t; split; reflexivity |].
  intros sortBy cs ps. subst cs ps.
  assert (Hperm : Permutation
            (view FilterCompleted (js "all") sortBy todos
             ++ view FilterPending (js "all") sortBy todos) todos).
  { rewrite !view_perm. apply (filter_partition_perm (fun t => completed t)). }
  repeat split.
  - intros t [Hd Ho]. apply view_In in Hd. apply view_In in Ho.
    simpl in Hd, Ho. destruct Hd as (_ & Hd & _), Ho as (_ & Ho & _).
    rewrite Hd in Ho. discriminate.
  - intros [Hd | Ho]; [apply view_In in Hd | apply view_In in Ho]; tauto.
  - intros Ht. rewrite !view_In. simpl.
    destruct (completed t); [left | right]; repeat split; auto.
  - exact Hperm.
  - rewrite Hperm. symmetry. rewrite view_perm. reflexivity.
Qed.

(** The comparator of the priority key against the rank order. *)
Lemma priority_sorted flt categoryFilter todos :
  StronglySorted
    (fun a b => priorityOrder (priority b) <= priorityOrder (priority a))
    (view flt categoryFilter SortPriority todos).
Proof.
  apply (Array_sort_sorted _ (fun _ => True)).
  - intros x y z _ _ _. lia.
  - intros x y _ _. unfold sortCompare. simpl. lia.
  - intros x y _ _. unfold sortCompare. simpl. lia.
  - apply List.Forall_forall. auto.
Qed.

(** C6.  Under the sort key [priority] the view holds the tasks that pass
    the filter, and a task of higher rank (high = 3, medium = 2, low = 1)
    always stands before a task of lower rank: every [high] task before
    every [medium] task, every [medium] task before every [low] task,
    whatever the order of the collection. *)
Theorem sort_by_priority_descending flt categoryFilter (todos : list Todo) :
  let v := view flt categoryFilter SortPriority todos in
  Permutation v (filterTodos flt categoryFilter todos)
  /\ higherPriorityFirst v
  /\ (forall (i j : nat) (a b : Todo),
         v !! i = Some a -> v !! j = Some b ->
         (priority a = high /\ priority b = medium)
         \/ (priority a = high /\ priority b = low)
         \/ (priority a = medium /\ priority b = low) ->
         (i < j)%nat).
Proof.
  intros v. subst v.
  assert (Hhp : higherPriorityFirst (view flt categoryFilter SortPriority todos)).
  { intros i j a b Ha Hb Hlt.
    destruct (Nat.lt_trichotomy i j) as [Hij | [-> | Hji]].
    - exact Hij.
    - rewrite Ha in Hb. injection Hb as ->. lia.
    - pose proof (StronglySorted_lookup _ _
                    (priority_sorted flt categoryFilter todos)
                    j i b a Hji Hb Ha) as Hle.
      simpl in Hle. lia. }
  split; [apply view_perm |]. split; [exact Hhp |].
  intros i j a b Ha Hb Hcase. apply (Hhp i j a b Ha Hb).
  destruct Hcase as [[-> ->] | [[-> ->] | [-> ->]]]; simpl; lia.
Qed.

Lemma date_sorted flt categoryFilter todos :
  validDueDates Date_getTime todos ->
  StronglySorted (dateLe Date_getTime)
                 (view flt categoryFilter SortDate todos).
Proof.
  intros Hvalid.
  apply (Array_sort_sorted _
           (fun t => noDueDate t = false -> is_Some (Date_getTime (dueDate t)))).
  - intros x y z _ _ _ Hxy Hyz. unfold dateLe in *.
    destruct Hyz as [Hz | (Hy & Hz & ty & tz & Ey & Ez & Hle)]; [now left |].
    destruct Hxy as [Hy' | (Hx & _ & tx & ty' & Ex & Ey' & Hle')]; [congruence |].
    right. repeat split; auto. exists tx, tz. repeat split; auto.
    rewrite Ey in Ey'. injection Ey' as <-. lia.
  - intros x y Px Py. unfold sortCompare, dateLe, noDueDate in *. simpl.
    destruct (truthy (dueDate x)) eqn:Ex, (truthy (dueDate y)) eqn:Ey; simpl;
      try lia; try (intros _; now left).
    destruct (Px eq_refl) as [tx Hx], (Py eq_refl) as [ty Hy].
    rewrite Hx, Hy. intros Hpos. right. repeat split; auto.
    exists ty, tx. repeat split; auto. lia.
  - intros x y Px Py. unfold sortCompare, dateLe, noDueDate in *. simpl.
    destruct (truthy (dueDate x)) eqn:Ex, (truthy (dueDate y)) eqn:Ey; simpl;
      try lia; try (intros _; now left).
    destruct (Px eq_refl) as [tx Hx], (Py eq_refl) as [ty Hy].
    rewrite Hx, Hy. intros Hnp. right. repeat split; auto.
    exists tx, ty. repeat split; auto. lia.
  - apply List.Forall_forall. intros t Ht. apply Hvalid.
    rewrite filterTodos_spec in Ht. now apply List.filter_In in Ht.
Qed.

(** C5.  Under the sort key [date], for a collection whose due dates are
    dates, the view holds the tasks that pass the filter, every task
    without a due date stands after every task with one, the tasks with
    due dates stand in non-decreasing date order, and the tasks without a
    due date keep the order the collection has them in. *)
Theorem sort_by_date_order flt categoryFilter (todos : list Todo) :
  validDueDates Date_getTime todos ->
  let v := view flt categoryFilter SortDate todos in
  Permutation v (filterTodos flt categoryFilter todos)
  /\ undatedLast v
  /\ datedAscending Date_getTime v
  /\ undatedOrderKept (filterTodos flt categoryFilter todos) v.
Proof.
  intros Hvalid v. subst v.
  pose proof (date_sorted flt categoryFilter todos Hvalid) as Hs.
  split; [apply view_perm |]. split; [| split].
  - intros i j a b Ha Hb Hda Hub.
    destruct (Nat.lt_trichotomy i j) as [Hij | [-> | Hji]].
    + exact Hij.
    + rewrite Ha in Hb. injection Hb as ->. congruence.
    + pose proof (StronglySorted_lookup _ _ Hs j i b a Hji Hb Ha) as Hle.
      destruct Hle as [Hu | (Hd & _)]; congruence.
  - intros i j a b ta tb Hij Ha Hb Hda Hdb Eta Etb.
    pose proof (StronglySorted_lookup _ _ Hs i j a b Hij Ha Hb) as Hle.
    destruct Hle as [Hu | (_ & _ & ta' & tb' & Ea & Eb & Hle)]; [congruence |].
    rewrite Eta in Ea. rewrite Etb in Eb.
    injection Ea as <-. injection Eb as <-. exact Hle.
  - unfold undatedOrderKept, filteredAndSortedTodos.
    apply Array_sort_filter_stable.
    intros x y _ _ Hx Hy. unfold sortCompare, noDueDate in *. simpl.
    apply negb_true_iff in Hx, Hy. rewrite Hx, Hy. simpl. lia.
Qed.

End ViewFacts.

(** ** The derived view and the array in state *)

Section ArrayStoreFacts.
Import ArrayStore (loc, store, alloc, read, write, spread, Array_filter,
                   Array_sort_in_place, StoreM_bind, bind).

Lemma alloc_fresh (arr : list Todo) (σ : store) :
  exists l, alloc arr σ = Some (l, <[l := arr]> σ) /\ σ !! l = None.
Proof.
  exists (fresh (dom σ)). split; [reflexivity |].
  apply not_elem_of_dom. apply is_fresh.
Qed.

Lemma ownsCopy_alloc (σ0 σ : store) (arr : list Todo) :
  (forall l0, is_Some (σ0 !! l0) -> σ !! l0 = σ0 !! l0) ->
  exists l, alloc arr σ = Some (l, <[l := arr]> σ)
            /\ ownsCopy σ0 (<[l := arr]> σ) l arr.
Proof.
  intros Hkeep. destruct (alloc_fresh arr σ) as (l & Hal & Hnone).
  exists l. split; [exact Hal |]. repeat split.
  - apply lookup_insert_eq.
  - destruct (σ0 !! l) eqn:E; [| reflexivity].
    rewrite Hkeep in Hnone by (rewrite E; eauto). congruence.
  - intros l0 Hsome. rewrite lookup_insert_ne; [now apply Hkeep |].
    intros ->. rewrite Hkeep in Hnone by exact Hsome.
    rewrite Hnone in Hsome. now destruct Hsome.
Qed.

Lemma spread_owns (σ0 : store) (a : loc) (arr : list Todo) :
  σ0 !! a = Some arr ->
  exists l σ, spread a σ0 = Some (l, σ) /\ ownsCopy σ0 σ l arr.
Proof.
  intros Ha. destruct (ownsCopy_alloc σ0 σ0 arr) as (l & Hal & Hown); [auto |].
  exists l, (<[l := arr]> σ0). split; [| exact Hown].
  unfold spread, mbind, StoreM_bind, bind, read. now rewrite Ha.
Qed.

Lemma Array_filter_owns (p : Todo -> bool) (σ0 σ : store) (a : loc)
  (arr : list Todo) :
  ownsCopy σ0 σ a arr ->
  exists l σ', Array_filter p a σ = Some (l, σ')
               /\ ownsCopy σ0 σ' l (List.filter p arr).
Proof.
  intros (Ha & _ & Hkeep).
  destruct (ownsCopy_alloc σ0 σ (List.filter p arr) Hkeep) as (l & Hal & Hown).
  exists l, (<[l := List.filter p arr]> σ). split; [| exact Hown].
  unfold Array_filter, mbind, StoreM_bind, bind, read. now rewrite Ha.
Qed.

Lemma Array_sort_in_place_owns (comparefn : Todo -> Todo -> option Z)
  (σ0 σ : store) (a : loc) (arr : list Todo) :
  ownsCopy σ0 σ a arr ->
  exists σ', Array_sort_in_place comparefn a σ = Some (a, σ')
             /\ ownsCopy σ0 σ' a (Array_sort comparefn arr).
Proof.
  intros (Ha & Hnew & Hkeep).
  exists (<[a := Array_sort comparefn arr]> σ). split.
  - unfold Array_sort_in_place, mbind, StoreM_bind, bind, read, write.
    now rewrite Ha.
  - repeat split; [apply lookup_insert_eq | exact Hnew |].
    intros l0 Hsome. rewrite lookup_insert_ne; [now apply Hkeep |].
    intros ->. rewrite Hnew in Hsome. now destruct Hsome.
Qed.

Variable Date_getTime : jsstring -> option Z.
Variable localeCompare : jsstring -> jsstring -> Z.

(** C9.  Run on a store in which [todos] names the collection, the memo
    returns an array other than [todos] that holds the collection filtered
    first and sorted afterwards; the array [todos] names still holds the
    same tasks in the same order, and so does every other array of the
    store. *)
Theorem derived_view_sorts_a_filtered_copy
  (flt : FilterType) (categoryFilter : jsstring) (sortBy : SortType)
  (σ0 : store) (todos : loc) (arr : list Todo) :
  σ0 !! todos = Some arr ->
  exists (result : loc) (σ : store),
    ArrayStore.filteredAndSortedTodos Date_getTime localeCompare
      flt categoryFilter sortBy todos σ0 = Some (result, σ)
    /\ result <> todos
    /\ σ !! todos = Some arr
    /\ (forall l0, is_Some (σ0 !! l0) -> σ !! l0 = σ0 !! l0)
    /\ σ !! result
       = Some (Array_sort (compareTodos Date_getTime localeCompare sortBy)
                          (filterTodos flt categoryFilter arr))
    /\ σ !! result
       = Some (filteredAndSortedTodos Date_getTime localeCompare
                 flt categoryFilter sortBy arr).
Proof.
  intros Htodos.
  destruct (spread_owns σ0 todos arr Htodos) as (l1 & σ1 & E1 & O1).
  assert (S2 : exists l2 σ2,
             (match flt with
              | FilterCompleted =>
                Array_filter (fun todo => completed todo) l1
              | FilterPending =>
                Array_filter (fun todo => negb (completed todo)) l1
              | FilterAll => mret l1
              end) σ1 = Some (l2, σ2)
             /\ ownsCopy σ0 σ2 l2
                  (match flt with
                   | FilterCompleted =>
                     List.filter (fun todo => completed todo) arr
                   | FilterPending =>
                     List.filter (fun todo => negb (completed todo)) arr
                   | FilterAll => arr
                   end)).
  { destruct flt.
    - exists l1, σ1. split; [reflexivity | exact O1].
    - now apply Array_filter_owns.
    - now apply Array_filter_owns. }
  destruct S2 as (l2 & σ2 & E2 & O2).
  assert (S3 : exists l3 σ3,
             (if negb (str_eqb categoryFilter (js "all"))
              then Array_filter
                     (fun todo => str_eqb (category todo) categoryFilter) l2
              else mret l2) σ2 = Some (l3, σ3)
             /\ ownsCopy σ0 σ3 l3 (filterTodos flt categoryFilter arr)).
  { unfold filterTodos.
    destruct (negb (str_eqb categoryFilter (js "all"))).
    - now apply Array_filter_owns.
    - exists l2, σ2. split; [reflexivity | exact O2]. }
  destruct S3 as (l3 & σ3 & E3 & O3).
  destruct (Array_sort_in_place_owns
              (compareTodos Date_getTime localeCompare sortBy) _ _ _ _ O3)
    as (σ4 & E4 & (Hres & Hnew & Hkeep)).
  exists l3, σ4. split.
  - unfold ArrayStore.filteredAndSortedTodos, mbind, StoreM_bind, bind.
    rewrite E1, E2, E3, E4. reflexivity.
  - split; [intros ->; congruence |].
    split; [rewrite Hkeep by (rewrite Htodos; eauto); exact Htodos |].
    split; [exact Hkeep |].
    split; exact Hres.
Qed.

End ArrayStoreFacts.

(** ** Per-category statistics *)

Lemma sumOver_cons (f : jsstring -> nat) (c : jsstring) (cats : list jsstring) :
  sumOver f (c :: cats) = (f c + sumOver f cats)%nat.
Proof. reflexivity. Qed.

Lemma sumOver_ext (f g : jsstring -> nat) (cats : list jsstring) :
  (forall c, In c cats -> g c = f c) -> sumOver g cats = sumOver f cats.
Proof.
  induction cats as [| c cats IH]; intros H; [reflexivity |].
  rewrite !sumOver_cons, H by now left. rewrite IH; [reflexivity |].
  intros c' Hc'. apply H. now right.
Qed.

Lemma sumOver_bump (f g : jsstring -> nat) (cats : list jsstring) (c : jsstring) :
  List.NoDup cats -> In c cats ->
  g c = S (f c) -> (forall c', c' <> c -> g c' = f c') ->
  sumOver g cats = S (sumOver f cats).
Proof.
  intros Hnd. induction Hnd as [| c0 cats Hnotin Hnd IH]; intros Hin Hc Hother.
  - destruct Hin.
  - rewrite !sumOver_cons. destruct (decide (c0 = c)) as [-> | Hne].
    + rewrite Hc. rewrite (sumOver_ext f g cats); [lia |].
      intros c' Hc'. apply Hother. intros ->. contradiction.
    + destruct Hin as [-> | Hin]; [contradiction |].
      rewrite (Hother c0 Hne), IH by assumption. lia.
Qed.

Lemma categoryOptions_NoDup : List.NoDup categoryOptions.
Proof.
  vm_compute. repeat constructor; simpl; intuition discriminate.
Qed.

Lemma categoryOptions_not_inherited (c : jsstring) :
  In c categoryOptions -> ~ In c objectPrototypeKeys.
Proof.
  intros Hc Hk.
  simpl in Hc. destruct Hc as [<- | [<- | [<- | [<- | []]]]];
    vm_compute in Hk; intuition discriminate.
Qed.

Lemma initialStats_keys : enumeratedKeys initialStats.
Proof.
  intros c. unfold initialStats, categoryOptions. simpl.
  rewrite !lookup_insert_is_Some', lookup_empty.
  pose proof (@is_Some_None CategoryStat). tauto.
Qed.

Lemma initialStats_zero (c : jsstring) :
  totalOf initialStats c = 0%nat /\ completedOf initialStats c = 0%nat.
Proof.
  unfold totalOf, completedOf, initialStats, categoryOptions. simpl.
  repeat (rewrite lookup_insert; case_decide; [now split |]).
  now rewrite lookup_empty.
Qed.

Lemma sumOver_zero (f : jsstring -> nat) (cats : list jsstring) :
  (forall c, f c = 0%nat) -> sumOver f cats = 0%nat.
Proof.
  intros Hf. induction cats as [| c cats IH]; [reflexivity |].
  now rewrite sumOver_cons, Hf, IH.
Qed.

(** One task whose category is enumerated: its record is bumped. *)
Lemma countTodo_enumerated (stats : gmap jsstring CategoryStat) (todo : Todo) :
  enumeratedKeys stats -> In (category todo) categoryOptions ->
  exists stats',
    countTodo stats todo = Returned stats'
    /\ enumeratedKeys stats'
    /\ sumOver (totalOf stats') categoryOptions
       = S (sumOver (totalOf stats) categoryOptions)
    /\ sumOver (completedOf stats') categoryOptions
       = ((if completed todo then 1 else 0)
          + sumOver (completedOf stats) categoryOptions)%nat.
Proof.
  intros Hkeys Hcat.
  destruct (proj2 (Hkeys (category todo)) Hcat) as [r Hr].
  unfold countTodo, stats_get. rewrite Hr. eexists. split; [reflexivity |].
  split; [| split].
  - intros c. rewrite lookup_insert_is_Some', (Hkeys c).
    split; [intros [<- | H]; assumption | intros H; now right].
  - apply (sumOver_bump _ _ _ (category todo));
      [apply categoryOptions_NoDup | exact Hcat | |].
    + unfold totalOf. rewrite lookup_insert_eq, Hr. now destruct (completed todo).
    + intros c' Hne. unfold totalOf. now rewrite lookup_insert_ne.
  - destruct (completed todo).
    + apply (sumOver_bump _ _ _ (category todo));
        [apply categoryOptions_NoDup | exact Hcat | |].
      * unfold completedOf. now rewrite lookup_insert_eq, Hr.
      * intros c' Hne. unfold completedOf. now rewrite lookup_insert_ne.
    + rewrite Nat.add_0_l. apply sumOver_ext. intros c _. unfold completedOf.
      destruct (decide (category todo = c)) as [<- | Hne].
      * now rewrite lookup_insert_eq, Hr.
      * now rewrite lookup_insert_ne.
Qed.

(** One task whose category is not enumerated: the record is missing, and
    the step either throws or counts nothing. *)
Lemma countTodo_outside (stats : gmap jsstring CategoryStat) (todo : Todo) :
  enumeratedKeys stats -> ~ In (category todo) categoryOptions ->
  countTodo stats todo
  = if bool_decide (category todo ∈ objectPrototypeKeys)
    then Returned stats else TypeError.
Proof.
  intros Hkeys Hcat. unfold countTodo, stats_get.
  destruct (stats !! category todo) eqn:E.
  - exfalso. apply Hcat, Hkeys. rewrite E. eauto.
  - now destruct (bool_decide (category todo ∈ objectPrototypeKeys)).
Qed.

Lemma forEach_countTodo_enumerated (todos : list Todo) :
  forall stats,
    enumeratedKeys stats ->
    (forall t, In t todos -> In (category t) categoryOptions) ->
    exists stats',
      forEach_countTodo todos stats = Returned stats'
      /\ enumeratedKeys stats'
      /\ sumOver (totalOf stats') categoryOptions
         = (sumOver (totalOf stats) categoryOptions + length todos)%nat
      /\ sumOver (completedOf stats') categoryOptions
         = (sumOver (completedOf stats) categoryOptions
            + completedCount todos)%nat.
Proof.
  induction todos as [| todo rest IH]; intros stats Hkeys Hall.
  - exists stats. unfold completedCount. simpl. repeat split; auto; try lia;
      apply Hkeys.
  - destruct (countTodo_enumerated stats todo Hkeys (Hall _ (or_introl eq_refl)))
      as (stats1 & E1 & K1 & T1 & C1).
    destruct (IH stats1 K1 (fun t Ht => Hall t (or_intror Ht)))
      as (stats' & E' & K' & T' & C').
    exists stats'. simpl. rewrite E1. split; [exact E' |]. split; [exact K' |].
    split; [lia |].
    rewrite C', C1. unfold completedCount. simpl.
    destruct (completed todo); simpl; lia.
Qed.

(** Whatever the categories: if the loop returns, it has counted exactly
    the tasks whose category is enumerated. *)
Lemma forEach_countTodo_returned (todos : list Todo) :
  forall stats stats',
    enumeratedKeys stats ->
    forEach_countTodo todos stats = Returned stats' ->
    (sumOver (totalOf stats') categoryOptions + outsideCount todos
     = sumOver (totalOf stats) categoryOptions + length todos)%nat.
Proof.
  induction todos as [| todo rest IH]; intros stats stats' Hkeys Hret.
  - simpl in Hret. injection Hret as <-. unfold outsideCount. simpl. lia.
  - simpl in Hret. unfold outsideCount in *. simpl.
    destruct (decide (In (category todo) categoryOptions)) as [Hin | Hout].
    + destruct (countTodo_enumerated stats todo Hkeys Hin)
        as (stats1 & E1 & K1 & T1 & _).
      rewrite E1 in Hret. specialize (IH stats1 stats' K1 Hret).
      rewrite bool_decide_eq_true_2 by now apply list_elem_of_In.
      simpl. lia.
    + rewrite (countTodo_outside stats todo Hkeys Hout) in Hret.
      destruct (bool_decide (category todo ∈ objectPrototypeKeys));
        [| discriminate].
      specialize (IH stats stats' Hkeys Hret).
      rewrite bool_decide_eq_false_2
        by (intros H; now apply list_elem_of_In in H).
      simpl. lia.
Qed.

Lemma outsideCount_pos (todos : list Todo) (t : Todo) :
  In t todos -> ~ In (category t) categoryOptions ->
  (0 < outsideCount todos)%nat.
Proof.
  intros Hin Hout. unfold outsideCount.
  assert (Hf : In t (List.filter
                       (fun t => negb (bool_decide (category t ∈ categoryOptions)))
                       todos)).
  { apply List.filter_In. split; [exact Hin |].
    rewrite bool_decide_eq_false_2; [reflexivity |].
    intros H. now apply list_elem_of_In in H. }
  destruct (List.filter _ todos); [destruct Hf | simpl; lia].
Qed.

(** A task whose category is neither enumerated nor a property of the
    prototype makes the loop throw, wherever it stands. *)
Lemma forEach_countTodo_throws (todos : list Todo) (t : Todo) :
  forall stats,
    enumeratedKeys stats ->
    In t todos ->
    ~ In (category t) categoryOptions ->
    ~ In (category t) objectPrototypeKeys ->
    forEach_countTodo todos stats = TypeError.
Proof.
  induction todos as [| todo rest IH]; intros stats Hkeys Hin Hout Hnp.
  - destruct Hin.
  - simpl. destruct (decide (In (category todo) categoryOptions)) as [Hc | Hc].
    + destruct (countTodo_enumerated stats todo Hkeys Hc)
        as (stats1 & E1 & K1 & _).
      rewrite E1. destruct Hin as [-> | Hin]; [contradiction |].
      now apply IH.
    + rewrite (countTodo_outside stats todo Hkeys Hc).
      destruct (bool_decide (category todo ∈ objectPrototypeKeys)) eqn:Ek;
        [| reflexivity].
      destruct Hin as [-> | Hin]; [| now apply IH].
      apply bool_decide_eq_true_1, list_elem_of_In in Ek. contradiction.
Qed.

Lemma hitsOnlyRecords_iff (todos : list Todo) :
  forall stats,
    enumeratedKeys stats ->
    hitsOnlyRecords todos stats = true <->
    (forall t, In t todos -> In (category t) categoryOptions).
Proof.
  induction todos as [| todo rest IH]; intros stats Hkeys; simpl.
  - split; [intros _ t [] | reflexivity].
  - destruct (decide (In (category todo) categoryOptions)) as [Hin | Hout].
    + destruct (countTodo_enumerated stats todo Hkeys Hin)
        as (stats1 & E1 & K1 & _).
      destruct (proj2 (Hkeys (category todo)) Hin) as [r Hr].
      rewrite E1. unfold stats_get. rewrite Hr, (IH stats1 K1).
      split; [intros H t [<- | Ht]; [exact Hin | now apply H]
             | intros H t Ht; apply H; now right].
    + assert (Hmiss : stats !! category todo = None).
      { destruct (stats !! category todo) eqn:E; [| reflexivity].
        exfalso. apply Hout, Hkeys. rewrite E. eauto. }
      unfold stats_get. rewrite Hmiss.
      destruct (bool_decide (category todo ∈ objectPrototypeKeys));
        (split; [discriminate | intros H; exfalso; apply Hout, H; now left]).
Qed.

(** C10.  [categoryStats] initialises a record for each of the four
    enumerated categories and then indexes by each task's category.  When
    every task's category is enumerated it returns, its keys are the
    enumerated categories, the per-category totals add up to the number of
    tasks and the per-category completed counts to the number of completed
    tasks.  Only then is it well defined: every lookup of the loop finds
    an initialised record exactly when every category is enumerated, a
    result whose totals add up to the number of tasks has only enumerated
    categories behind it, and a task whose category is neither enumerated
    nor a property name of the object prototype makes the computation
    throw.  A collection with one task of category ["x"] is such a failing
    input. *)
Theorem categoryStats_total_on_enumerated_categories :
  (forall todos,
      (forall t, In t todos -> In (category t) categoryOptions) ->
      exists stats,
        categoryStats todos = Returned stats
        /\ enumeratedKeys stats
        /\ sumOver (totalOf stats) categoryOptions = length todos
        /\ sumOver (completedOf stats) categoryOptions = completedCount todos)
  /\ (forall todos,
         hitsOnlyRecords todos initialStats = true <->
         (forall t, In t todos -> In (category t) categoryOptions))
  /\ (forall todos stats,
         categoryStats todos = Returned stats ->
         sumOver (totalOf stats) categoryOptions = length todos ->
         forall t, In t todos -> In (category t) categoryOptions)
  /\ (forall todos t,
         In t todos ->
         ~ In (category t) categoryOptions ->
         ~ In (category t) objectPrototypeKeys ->
         categoryStats todos = TypeError)
  /\ (let todos := [mkTodo (js "1") (js "t") (js "x") medium [] false] in
      (exists t, In t todos /\ ~ In (category t) categoryOptions)
      /\ categoryStats todos = TypeError).
Proof.
  assert (Hzero : sumOver (totalOf initialStats) categoryOptions = 0%nat
                  /\ sumOver (completedOf initialStats) categoryOptions = 0%nat).
  { split; apply sumOver_zero; intros c; apply initialStats_zero. }
  destruct Hzero as [Ht0 Hc0].
  split; [| split; [| split; [| split]]].
  - intros todos Hall.
    destruct (forEach_countTodo_enumerated todos initialStats
                initialStats_keys Hall) as (stats & E & K & T & C).
    exists stats. unfold categoryStats. repeat split; auto; try apply K; lia.
  - intros todos. apply hitsOnlyRecords_iff, initialStats_keys.
  - intros todos stats Hret Hsum t Hin.
    destruct (decide (In (category t) categoryOptions)) as [Hc | Hc]; [exact Hc |].
    pose proof (forEach_countTodo_returned todos initialStats stats
                  initialStats_keys Hret) as Hcount.
    pose proof (outsideCount_pos todos t Hin Hc). lia.
  - intros todos t Hin Hout Hnp. unfold categoryStats.
    apply (forEach_countTodo_throws todos t); auto using initialStats_keys.
  - intros todos. subst todos. split; [| vm_compute; reflexivity].
    eexists. split; [now left |].
    vm_compute. intuition discriminate.
Qed.

(** ** Completion percentage *)

Lemma sf_eqb_eq (x y : spec_float) : sf_eqb x y = true -> x = y.
Proof.
  destruct x as [a | a | | a m e], y as [b | b | | b n f]; simpl;
    try discriminate; try reflexivity.
  - intros H. apply Bool.eqb_prop in H. now subst.
  - intros H. apply Bool.eqb_prop in H. now subst.
  - intros H. apply andb_true_iff in H as [H He].
    apply andb_true_iff in H as [Hs Hm].
    apply Bool.eqb_prop in Hs. apply Pos.eqb_eq in Hm. apply Z.eqb_eq in He.
    now subst.
Qed.

Lemma completedCount_le_length (todos : list Todo) :
  (completedCount todos <= length todos)%nat.
Proof. apply List.filter_length_le. Qed.

Lemma agreesBelow_40 : agreesBelow 40 = true.
Proof. vm_compute. reflexivity. Qed.

Lemma agreesBelow_sound (bound len c : nat) :
  agreesBelow bound = true -> (len < bound)%nat -> (c <= len)%nat ->
  progressPercentageOf len c = f64_of_Z (roundedPercentage len c).
Proof.
  intros Hall Hlen Hc. unfold agreesBelow in Hall.
  rewrite forallb_forall in Hall.
  specialize (Hall len). rewrite forallb_forall in Hall.
  apply sf_eqb_eq, Hall; apply in_seq; lia.
Qed.

(** C8, as the code has it.  The percentage is [0] for the empty
    collection and otherwise [Math.round] of the binary64 product
    [(completedCount / length) * 100]; for every collection of fewer than
    forty tasks this is the exact [round(completed / total * 100)], and for
    four tasks of which one is completed it is [25]. *)
Theorem progressPercentage_value (todos : list Todo) :
  (todos = [] -> progressPercentage todos = f64_of_Z 0)
  /\ (todos <> [] ->
      progressPercentage todos
      = Math_round
          (f64_mul
             (f64_div (f64_of_Z (Z.of_nat (completedCount todos)))
                      (f64_of_Z (Z.of_nat (length todos))))
             (f64_of_Z 100)))
  /\ ((length todos < 40)%nat ->
      progressPercentage todos
      = f64_of_Z (roundedPercentage (length todos) (completedCount todos)))
  /\ (length todos = 4%nat -> completedCount todos = 1%nat ->
      progressPercentage todos = f64_of_Z 25).
Proof.
  split; [| split; [| split]].
  - intros ->. reflexivity.
  - intros Hne. unfold progressPercentage, progressPercentageOf.
    destruct todos; [congruence | reflexivity].
  - intros Hlen. apply (agreesBelow_sound 40);
      [apply agreesBelow_40 | exact Hlen | apply completedCount_le_length].
  - intros H4 H1. unfold progressPercentage. rewrite H4, H1.
    vm_compute. reflexivity.
Qed.

(** Forty tasks of which twenty-three are completed: the quotient
    [23 / 40] is not a binary64 value, the product comes out just below
    [57.5], and the page shows [57] where the exact rounding gives [58]. *)
Lemma progressPercentage_not_exact_rounding :
  let todos := tasks 40 23 in
  length todos = 40%nat
  /\ completedCount todos = 23%nat
  /\ roundedPercentage (length todos) (completedCount todos) = 58
  /\ progressPercentage todos = f64_of_Z 57
  /\ progressPercentage todos
     <> f64_of_Z (roundedPercentage (length todos) (completedCount todos)).
Proof.
  intros todos. subst todos.
  repeat split; try (vm_compute; reflexivity).
  vm_compute. discriminate.
Qed.

Lemma progressPercentage_value_witness :
  progressPercentage (tasks 4 1) = f64_of_Z 25.
Proof.
  apply (proj2 (proj2 (proj2 (progressPercentage_value (tasks 4 1)))));
    vm_compute; reflexivity.
Defined.

(** ** Mutations *)

Lemma str_eqb_eq (a b : jsstring) : str_eqb a b = true <-> a = b.
Proof. unfold str_eqb. apply bool_decide_eq_true. Qed.

Lemma str_eqb_neq (a b : jsstring) : str_eqb a b = false <-> a <> b.
Proof. unfold str_eqb. apply bool_decide_eq_false. Qed.

Lemma map_id_on {A} (f : A -> A) (l : list A) :
  (forall x, In x l -> f x = x) -> List.map f l = l.
Proof.
  induction l as [| x l IH]; simpl; intros H; [reflexivity |].
  rewrite H by now left. rewrite IH; [reflexivity |].
  intros y Hy. apply H. now right.
Qed.

Lemma flipIf_involutive (i : jsstring) (todo : Todo) :
  flipIf i (flipIf i todo) = todo.
Proof.
  unfold flipIf. destruct (str_eqb (id todo) i) eqn:E.
  - simpl. rewrite E. destruct todo. unfold setCompleted. simpl.
    now rewrite negb_involutive.
  - now rewrite E.
Qed.

Lemma setIf_back (i : jsstring) (c : bool) (todo : Todo) :
  (id todo = i -> completed todo = c) ->
  setIf i c (setIf i (negb c) todo) = todo.
Proof.
  intros Hc. unfold setIf. destruct (str_eqb (id todo) i) eqn:E.
  - simpl. rewrite E. apply str_eqb_eq in E. rewrite <- (Hc E).
    now destruct todo.
  - now rewrite E.
Qed.

Lemma setIf_absent (i : jsstring) (c : bool) (l : list Todo) :
  (forall t, In t l -> id t <> i) -> List.map (setIf i c) l = l.
Proof.
  intros Habs. apply map_id_on. intros t Ht. unfold setIf.
  now rewrite (proj2 (str_eqb_neq _ _) (Habs t Ht)).
Qed.

(** C4.  In the in-memory page, toggling the same id twice gives back the
    state it started from, so every task has its original [completed] flag
    and every other field unchanged; one toggle flips the flag of the
    tasks with that id and leaves the other tasks alone, and with an id no
    task has it changes nothing.  In the persisted page, where the
    checkbox passes the flag it shows, two accepted toggles of a task, the
    second passing the flag the first one set, give back the collection,
    and an id no task has leaves the collection unchanged whatever the
    store answers. *)
Theorem toggleTodo_twice_restores :
  (forall i s, Local.toggleTodo i (Local.toggleTodo i s) = s)
  /\ (forall i s (n : nat) t,
         Local.todos s !! n = Some t ->
         Local.todos (Local.toggleTodo i s) !! n
         = Some (if str_eqb (id t) i
                 then setCompleted (negb (completed t)) t else t))
  /\ (forall i s,
         (forall t, In t (Local.todos s) -> id t <> i) ->
         Local.toggleTodo i s = s)
  /\ (forall i c s store,
         (forall req, exists data, store req = Persisted.Success data) ->
         (forall t, In t (Persisted.todos s) -> id t = i -> completed t = c) ->
         Persisted.run store
           (Persisted.toggleTodo i (negb c)
              (Persisted.run store (Persisted.toggleTodo i c s)))
         = s)
  /\ (forall i c s store,
         (forall t, In t (Persisted.todos s) -> id t <> i) ->
         Persisted.todos (Persisted.run store (Persisted.toggleTodo i c s))
         = Persisted.todos s).
Proof.
  split; [| split; [| split; [| split]]].
  - intros i [todos f e ef fe fv]. unfold Local.toggleTodo, Local.setTodos.
    simpl. f_equal. rewrite List.map_map. apply map_id_on.
    intros t _. apply (flipIf_involutive i t).
  - intros i s n t Hn. unfold Local.toggleTodo. simpl.
    rewrite list_lookup_fmap, Hn. reflexivity.
  - intros i [todos f e ef fe fv] Habs.
    unfold Local.toggleTodo, Local.setTodos. simpl in *. f_equal.
    apply map_id_on. intros t Ht.
    now rewrite (proj2 (str_eqb_neq _ _) (Habs t Ht)).
  - intros i c [todos f e ef fe fv sub fb [sess |]] store Hok Hflag;
      unfold Persisted.toggleTodo; simpl; [| reflexivity].
    destruct (Hok (Persisted.Update i [Persisted.col_completed (negb c)]))
      as [d1 ->].
    simpl.
    destruct (Hok (Persisted.Update i
                     [Persisted.col_completed (negb (negb c))])) as [d2 ->].
    unfold Persisted.setTodos. simpl. f_equal.
    rewrite List.map_map, negb_involutive. apply map_id_on.
    intros t Ht. apply (setIf_back i c t). now apply Hflag.
  - intros i c s store Habs. unfold Persisted.toggleTodo.
    destruct (Persisted.session s); [| reflexivity]. simpl.
    destruct (store _); simpl; [reflexivity |].
    now apply (setIf_absent i (negb c)).
Qed.

Lemma toggleTodo_twice_restores_witness :
  Persisted.run (Persisted.acceptingStore (js "9"))
    (Persisted.toggleTodo (id reviewPR) true
       (Persisted.run (Persisted.acceptingStore (js "9"))
          (Persisted.toggleTodo (id reviewPR) false
             (Persisted.scenarioState scenario))))
  = Persisted.scenarioState scenario.
Proof.
  apply (proj1 (proj2 (proj2 (proj2 toggleTodo_twice_restores)))
           (id reviewPR) false (Persisted.scenarioState scenario)
           (Persisted.acceptingStore (js "9"))).
  - intros [payload | i payload | i]; eexists; reflexivity.
  - intros t Ht _. simpl in Ht.
    destruct Ht as [<- | [<- | [<- | []]]]; reflexivity.
Defined.

(** What the in-memory [deleteTodo] does to the collection and to the
    full-row edit session. *)
Lemma Local_deleteTodo_removes (i : jsstring) (s : Local.State) :
  Local.todos (Local.deleteTodo i s)
  = List.filter (fun todo => negb (str_eqb (id todo) i)) (Local.todos s)
  /\ (forall t, In t (Local.todos (Local.deleteTodo i s)) <->
                In t (Local.todos s) /\ id t <> i)
  /\ (Local.editingId s = Some i ->
      Local.editingId (Local.deleteTodo i s) = None)
  /\ (Local.editingId s <> Some i ->
      Local.editingId (Local.deleteTodo i s) = Local.editingId s).
Proof.
  assert (Htodos : Local.todos (Local.deleteTodo i s)
                   = List.filter (fun todo => negb (str_eqb (id todo) i))
                                 (Local.todos s)).
  { unfold Local.deleteTodo. now destruct (editingIs (Local.editingId s) i). }
  split; [exact Htodos |]. split; [| split].
  - intros t. rewrite Htodos, List.filter_In, negb_true_iff, str_eqb_neq.
    tauto.
  - intros He. unfold Local.deleteTodo, editingIs. rewrite He.
    now rewrite (proj2 (str_eqb_eq i i) eq_refl).
  - intros Hne. unfold Local.deleteTodo, editingIs.
    destruct (Local.editingId s) as [e |] eqn:E; simpl; [| now rewrite E].
    destruct (str_eqb e i) eqn:Ee; simpl; [| now rewrite E].
    apply str_eqb_eq in Ee. congruence.
Qed.

(** X1.  What [deleteTodo] does carry out, in both pages: the collection
    becomes the one filtered by [todo.id !== id], so exactly the tasks with
    that id go and the others stay in their order, and a full-row edit
    session keyed by that id is reset while any other is kept.  In the
    persisted page this is what an accepted delete does to the state it
    resumes on; the session tested is the one the handler was created
    with. *)
Theorem deleteTodo_removes_and_resets_row_edit :
  (forall i s,
      Local.todos (Local.deleteTodo i s)
      = List.filter (fun todo => negb (str_eqb (id todo) i)) (Local.todos s)
      /\ (forall t, In t (Local.todos (Local.deleteTodo i s)) <->
                    In t (Local.todos s) /\ id t <> i)
      /\ (Local.editingId s = Some i ->
          Local.editingId (Local.deleteTodo i s) = None)
      /\ (Local.editingId s <> Some i ->
          Local.editingId (Local.deleteTodo i s) = Local.editingId s))
  /\ (forall i s sess,
         Persisted.session s = Some sess ->
         exists k,
           Persisted.deleteTodo i s
           = Persisted.Await s (Persisted.Delete i) k
           /\ forall data s',
               Persisted.todos (k (Persisted.Success data) s')
               = List.filter (fun todo => negb (str_eqb (id todo) i))
                             (Persisted.todos s')
               /\ (forall t,
                      In t (Persisted.todos (k (Persisted.Success data) s'))
                      <-> In t (Persisted.todos s') /\ id t <> i)
               /\ (Persisted.editingId s = Some i ->
                   Persisted.editingId (k (Persisted.Success data) s') = None)
               /\ (Persisted.editingId s <> Some i ->
                   Persisted.editingId (k (Persisted.Success data) s')
                   = Persisted.editingId s')).
Proof.
  split; [intros i s; apply Local_deleteTodo_removes |].
  intros i s sess Hs. unfold Persisted.deleteTodo. rewrite Hs.
  eexists. split; [reflexivity |]. intros data s'.
  assert (Htodos :
            Persisted.todos
              (if editingIs (Persisted.editingId s) i
               then Persisted.setEditingId None
                      (Persisted.setTodos
                         (fun prev =>
                            List.filter
                              (fun todo => negb (str_eqb (id todo) i)) prev) s')
               else Persisted.setTodos
                      (fun prev =>
                         List.filter
                           (fun todo => negb (str_eqb (id todo) i)) prev) s')
            = List.filter (fun todo => negb (str_eqb (id todo) i))
                          (Persisted.todos s')).
  { now destruct (editingIs (Persisted.editingId s) i). }
  split; [exact Htodos |]. split; [| split].
  - intros t. rewrite Htodos, List.filter_In, negb_true_iff, str_eqb_neq.
    tauto.
  - intros He. unfold editingIs. rewrite He.
    now rewrite (proj2 (str_eqb_eq i i) eq_refl).
  - intros Hne. unfold editingIs.
    destruct (Persisted.editingId s) as [e |]; [| reflexivity].
    destruct (str_eqb e i) eqn:Ee; [| reflexivity].
    apply str_eqb_eq in Ee. congruence.
Qed.

(** C1, at the failing input.  [deleteTodo] never writes the single-field
    edit session, in either page: the session stays as it was also when it
    is keyed by the id being deleted.  With the scenario's three tasks and
    a priority edit open on "Review PR", deleting "Review PR" removes that
    task and no other, and the edit session keyed by its id is still
    there, draft included. *)
Theorem deleteTodo_keeps_field_edit_session :
  (forall i s,
      Local.fieldEditing (Local.deleteTodo i s) = Local.fieldEditing s
      /\ Local.fieldEditValue (Local.deleteTodo i s) = Local.fieldEditValue s)
  /\ (forall i s store,
         Persisted.fieldEditing
           (Persisted.run store (Persisted.deleteTodo i s))
         = Persisted.fieldEditing s)
  /\ (let s := Local.startFieldEditing reviewPR FieldPriority
                 (Local.mkState scenario emptyForm None emptyForm None []) in
      let s' := Local.deleteTodo (id reviewPR) s in
      Local.fieldEditing s = Some (mkFieldEditing (id reviewPR) FieldPriority)
      /\ Local.todos s' = [buyMilk; finishReport]
      /\ Local.fieldEditing s'
         = Some (mkFieldEditing (id reviewPR) FieldPriority)
      /\ Local.fieldEditValue s' = js "medium")
  /\ (let s := Persisted.startFieldEditing reviewPR FieldPriority
                 (Persisted.scenarioState scenario) in
      let s' := Persisted.run (Persisted.acceptingStore (js "9"))
                  (Persisted.deleteTodo (id reviewPR) s) in
      Persisted.todos s' = [buyMilk; finishReport]
      /\ Persisted.fieldEditing s'
         = Some (mkFieldEditing (id reviewPR) FieldPriority)).
Proof.
  split; [| split; [| split]].
  - intros i s. unfold Local.deleteTodo.
    destruct (editingIs (Local.editingId s) i); split; reflexivity.
  - intros i s store. unfold Persisted.deleteTodo.
    destruct (Persisted.session s); [| reflexivity]. simpl.
    destruct (store _); [reflexivity |].
    destruct (editingIs (Persisted.editingId s) i); reflexivity.
  - vm_compute. repeat split; reflexivity.
  - vm_compute. repeat split; reflexivity.
Qed.

(** [trim] leaves nothing exactly of the strings made of white space. *)
Lemma trimStart_cases (s : jsstring) :
  (trimStart s = [] /\ forallb isWhiteSpace s = true)
  \/ (exists c r, trimStart s = c :: r /\ isWhiteSpace c = false).
Proof.
  induction s as [| c r IH]; simpl.
  - now left.
  - destruct (isWhiteSpace c) eqn:E; [exact IH |].
    right. now exists c, r.
Qed.

Lemma trimStart_blank (s : jsstring) :
  forallb isWhiteSpace s = true -> trimStart s = [].
Proof.
  induction s as [| c r IH]; simpl; [reflexivity |].
  intros H. apply andb_true_iff in H as [Hc Hr]. now rewrite Hc, IH.
Qed.

Lemma trim_empty_iff (s : jsstring) :
  trim s = [] <-> forallb isWhiteSpace s = true.
Proof.
  unfold trim, trimEnd. split.
  - intros H.
    destruct (trimStart_cases s) as [[_ Hall] | (c & r & E & Hc)];
      [exact Hall |].
    exfalso. rewrite E in H.
    assert (Hrev : trimStart (rev (c :: r)) = []).
    { destruct (trimStart (rev (c :: r))); [reflexivity |].
      simpl in H. now destruct (rev l). }
    destruct (trimStart_cases (rev (c :: r)))
      as [[_ Hall] | (c' & r' & E' & _)]; [| congruence].
    rewrite forallb_forall in Hall.
    specialize (Hall c (proj1 (in_rev (c :: r) c) (or_introl eq_refl))).
    congruence.
  - intros Hall. now rewrite (trimStart_blank s Hall).
Qed.

Lemma priorityString_inj (p q : Priority) :
  priorityString p = priorityString q -> p = q.
Proof. destruct p, q; vm_compute; intros H; congruence. Qed.

Lemma orNull_back (v : jsstring) :
  match Persisted.orNull v with Some d => d | None => [] end = v.
Proof. now destruct v. Qed.

(** C2, as the code has it.  A text trims to the empty string exactly when
    it is empty or all white space.  In the in-memory page, a form whose
    text trims to a non-empty string makes [addTodo] append exactly one
    task:
    the given id, the trimmed text, the form's category, priority and due
    date, not completed; a form whose text is empty or blank leaves the
    whole state as it is.  In the persisted page a blank text leaves the
    collection as it is; so do a missing session and a submission already
    in flight; otherwise the handler issues one insert of the trimmed text
    and the form's fields with [completed] false, and when the store
    answers with the stored row the task of that row is put at the front
    of the collection. *)
Theorem addTodo_adds_one_task :
  (forall input, trim input = [] <-> forallb isWhiteSpace input = true)
  /\ (forall uuid s,
      trim (form_text (Local.form s)) <> [] ->
      Local.todos (Local.addTodo uuid s)
      = Local.todos s
        ++ [ mkTodo uuid (trim (form_text (Local.form s)))
                    (form_category (Local.form s))
                    (form_priority (Local.form s))
                    (form_dueDate (Local.form s)) false ])
  /\ (forall uuid s,
         trim (form_text (Local.form s)) = [] -> Local.addTodo uuid s = s)
  /\ (forall s store,
         trim (form_text (Persisted.form s)) = []
         \/ Persisted.session s = None
         \/ Persisted.isSubmitting s = true ->
         Persisted.todos (Persisted.run store (Persisted.addTodo s))
         = Persisted.todos s)
  /\ (forall s sess,
         Persisted.session s = Some sess ->
         Persisted.isSubmitting s = false ->
         trim (form_text (Persisted.form s)) <> [] ->
         exists s1 payload k,
           Persisted.addTodo s
           = Persisted.Await s1 (Persisted.Insert payload) k
           /\ payload
              = [ Persisted.col_text (trim (form_text (Persisted.form s)));
                  Persisted.col_category (form_category (Persisted.form s));
                  Persisted.col_priority
                    (priorityString (form_priority (Persisted.form s)));
                  Persisted.col_due_date
                    (Persisted.orNull (form_dueDate (Persisted.form s)));
                  Persisted.col_completed false ]
           /\ Persisted.todos s1 = Persisted.todos s
           /\ forall i row s',
               Persisted.echoes payload i row ->
               Persisted.todos (k (Persisted.Success (Some row)) s')
               = mkTodo i (trim (form_text (Persisted.form s)))
                        (form_category (Persisted.form s))
                        (form_priority (Persisted.form s))
                        (form_dueDate (Persisted.form s)) false
                 :: Persisted.todos s').
Proof.
  split; [exact trim_empty_iff |].
  split; [| split; [| split]].
  - intros uuid s Hne. unfold Local.addTodo.
    now rewrite (proj2 (str_eqb_neq _ _) Hne).
  - intros uuid s He. unfold Local.addTodo.
    now rewrite (proj2 (str_eqb_eq _ _) He).
  - intros s store Hcase. unfold Persisted.addTodo.
    destruct (Persisted.session s) as [sess |]; [| reflexivity].
    destruct Hcase as [He | [Hs | Hsub]].
    + now rewrite (proj2 (str_eqb_eq _ _) He).
    + discriminate.
    + rewrite Hsub, orb_true_r. reflexivity.
  - intros s sess Hs Hsub Hne. unfold Persisted.addTodo.
    rewrite Hs, Hsub, (proj2 (str_eqb_neq _ _) Hne). simpl.
    eexists _, _, _. split; [reflexivity |]. split; [reflexivity |].
    split; [reflexivity |].
    intros i row s' [Hid Hpay]. simpl.
    injection Hpay as Ht Hc Hp Hd Hb.
    apply priorityString_inj in Hp.
    unfold Persisted.mapRowToTodo.
    rewrite Hid, <- Ht, <- Hc, <- Hp, <- Hd, <- Hb, orNull_back.
    reflexivity.
Qed.

(** A signed-in page showing "Buy milk", the form filled in with
    "  Walk dog ": the store accepts the insert and the new task comes
    first, so the collection is not the old one with a task appended.  The
    same form on a signed-out page adds nothing. *)
Lemma persisted_addTodo_does_not_append :
  let s := Persisted.setForm walkDogForm (Persisted.scenarioState [buyMilk]) in
  let s' := Persisted.run (Persisted.acceptingStore (js "9"))
              (Persisted.addTodo s) in
  let signedOut :=
    Persisted.mkState [buyMilk] walkDogForm None emptyForm None [] false
                      None None in
  let signedOut' := Persisted.run (Persisted.acceptingStore (js "9"))
                      (Persisted.addTodo signedOut) in
  trim (form_text (Persisted.form s)) = js "Walk dog"
  /\ Persisted.todos s'
     = [ mkTodo (js "9") (js "Walk dog") (js "개인") high (js "2024-02-01")
                false; buyMilk ]
  /\ ~ appendsOne (Persisted.form s) (Persisted.todos s) (Persisted.todos s')
  /\ Persisted.todos signedOut' = [buyMilk]
  /\ ~ appendsOne (Persisted.form signedOut) (Persisted.todos signedOut)
                  (Persisted.todos signedOut').
Proof.
  intros s s' signedOut signedOut'. subst s s' signedOut signedOut'.
  split; [vm_compute; reflexivity |].
  split; [vm_compute; reflexivity |].
  split; [| split; [vm_compute; reflexivity |]].
  - intros [t [Heq _]]. vm_compute in Heq. discriminate Heq.
  - intros [t [Heq _]]. vm_compute in Heq. discriminate Heq.
Qed.

Lemma addTodo_adds_one_task_witness :
  Local.todos
    (Local.addTodo (js "4")
       (Local.mkState scenario walkDogForm None emptyForm None []))
  = scenario
    ++ [ mkTodo (js "4") (js "Walk dog") (js "개인") high (js "2024-02-01")
                false ].
Proof.
  apply (proj1 (proj2 addTodo_adds_one_task) (js "4")
           (Local.mkState scenario walkDogForm None emptyForm None [])).
  vm_compute. discriminate.
Defined.

(** C3.  Each of the five mutations of the persisted page either returns
    without a remote write, and then the collection is as before, or stops
    at one remote write with the collection as before; when that write is
    answered with an error, the continuation leaves the collection of the
    state it runs on untouched and sets an error feedback message.  Run
    against any store, a mutation that changed the collection had its
    write accepted. *)
Theorem failed_remote_write_keeps_todos (m : Persisted.Mutation)
  (s : Persisted.State) :
  match Persisted.perform m s with
  | Persisted.Done s' => Persisted.todos s' = Persisted.todos s
  | Persisted.Await s1 req k =>
    Persisted.todos s1 = Persisted.todos s
    /\ (forall err s2,
           Persisted.todos (k (Persisted.Failure err) s2) = Persisted.todos s2
           /\ exists message,
               Persisted.feedback (k (Persisted.Failure err) s2)
               = Some (Persisted.mkFeedback Persisted.error message))
    /\ (forall store,
           Persisted.todos (Persisted.run store (Persisted.perform m s))
           <> Persisted.todos s ->
           exists data, store req = Persisted.Success data)
  end.
Proof.
  destruct m as [| i c | i | i |]; simpl.
  - unfold Persisted.addTodo.
    destruct (Persisted.session s); [| reflexivity].
    destruct (_ || _); [reflexivity |].
    split; [reflexivity |]. split.
    + intros err s2. split; [reflexivity | eexists; reflexivity].
    + intros store Hch. simpl in Hch.
      destruct (store _) as [err | data]; [now destruct Hch | eauto].
  - unfold Persisted.toggleTodo.
    destruct (Persisted.session s); [| reflexivity].
    split; [reflexivity |]. split.
    + intros err s2. split; [reflexivity | eexists; reflexivity].
    + intros store Hch. simpl in Hch.
      destruct (store _) as [err | data]; [now destruct Hch | eauto].
  - unfold Persisted.deleteTodo.
    destruct (Persisted.session s); [| reflexivity].
    split; [reflexivity |]. split.
    + intros err s2. split; [reflexivity | eexists; reflexivity].
    + intros store Hch. simpl in Hch.
      destruct (store _) as [err | data]; [now destruct Hch | eauto].
  - unfold Persisted.saveEditing.
    destruct (Persisted.session s); [| reflexivity].
    destruct (str_eqb _ _); [reflexivity |].
    split; [reflexivity |]. split.
    + intros err s2. split; [reflexivity | eexists; reflexivity].
    + intros store Hch. simpl in Hch.
      destruct (store _) as [err | data]; [now destruct Hch | eauto].
  - unfold Persisted.saveFieldEditing.
    destruct (Persisted.fieldEditing s) as [fe |]; [| reflexivity].
    destruct (Persisted.session s); [| reflexivity].
    split; [reflexivity |]. split.
    + intros err s2. split; [reflexivity | eexists; reflexivity].
    + intros store Hch. simpl in Hch.
      destruct (store _) as [err | data]; [now destruct Hch | eauto].
Qed.

(** ** The scenario of the specification *)

(** The scenario of the specification: with "Buy milk" (no date, low),
    "Finish report" (2024-01-10, high) and "Review PR" (2024-01-05, medium)
    created in this order, the view by date is Review PR, Finish report,
    Buy milk and the view by priority is Finish report, Review PR,
    Buy milk. *)
Theorem scenario_orders :
  filteredAndSortedTodos isoDateTime codeUnitCompare
    FilterAll (js "all") SortDate scenario
  = [reviewPR; finishReport; buyMilk]
  /\ filteredAndSortedTodos isoDateTime codeUnitCompare
       FilterAll (js "all") SortPriority scenario
     = [finishReport; reviewPR; buyMilk].
Proof. split; vm_compute; reflexivity. Qed.

(** A refused delete on the signed-in scenario page: the three tasks stay
    and the error message of the delete handler is shown. *)
Example refused_delete_keeps_scenario :
  let s' := Persisted.run Persisted.refusingStore
              (Persisted.deleteTodo (id reviewPR)
                 (Persisted.scenarioState scenario)) in
  Persisted.todos s' = scenario
  /\ Persisted.feedback s'
     = Some (Persisted.mkFeedback Persisted.error Persisted.msgDeleteFailed).
Proof. split; reflexivity. Qed.

Lemma scenario_validDueDates : validDueDates isoDateTime scenario.
Proof.
  intros t Ht Hd. simpl in Ht.
  destruct Ht as [<- | [<- | [<- | []]]];
    [discriminate Hd | |]; eexists; vm_compute; reflexivity.
Defined.

Lemma sort_by_date_order_witness :
  let v := filteredAndSortedTodos isoDateTime codeUnitCompare
             FilterAll (js "all") SortDate scenario in
  Permutation v (filterTodos FilterAll (js "all") scenario)
  /\ undatedLast v
  /\ datedAscending isoDateTime v
  /\ undatedOrderKept (filterTodos FilterAll (js "all") scenario) v.
Proof.
  exact (sort_by_date_order isoDateTime codeUnitCompare FilterAll (js "all")
           scenario scenario_validDueDates).
Defined.

Lemma derived_view_sorts_a_filtered_copy_witness :
  exists (result : positive) (σ : gmap positive (list Todo)),
    ArrayStore.filteredAndSortedTodos isoDateTime codeUnitCompare
      FilterAll (js "all") SortPriority 1%positive
      (<[1%positive := scenario]> ∅) = Some (result, σ)
    /\ result <> 1%positive
    /\ σ !! 1%positive = Some scenario
    /\ σ !! result = Some [finishReport; reviewPR; buyMilk].
Proof.
  destruct (derived_view_sorts_a_filtered_copy isoDateTime codeUnitCompare
              FilterAll (js "all") SortPriority
              (<[1%positive := scenario]> ∅) 1%positive scenario
              (lookup_insert_eq _ _ _))
    as (result & σ & E & Hne & Hsrc & _ & Hres & _).
  exists result, σ. repeat split; auto.
Defined.

(** ** The page state under the controls of the in-memory page *)

Lemma trimStart_split (s : jsstring) :
  exists w, s = w ++ trimStart s /\ forallb isWhiteSpace w = true.
Proof.
  induction s as [| c r IH]; simpl.
  - now exists [].
  - destruct (isWhiteSpace c) eqn:E.
    + destruct IH as (w & Hw & Hall). exists (c :: w). simpl.
      rewrite E, Hall. split; [now f_equal | reflexivity].
    + now exists [].
Qed.

Lemma trimStart_head (s : jsstring) (c : N) (r : jsstring) :
  trimStart s = c :: r -> isWhiteSpace c = false.
Proof.
  intros E. destruct (trimStart_cases s) as [[E0 _] | (c' & r' & E' & Hc)].
  - congruence.
  - rewrite E in E'. now injection E' as -> ->.
Qed.

Lemma trimStart_fixed (c : N) (r : jsstring) :
  isWhiteSpace c = false -> trimStart (c :: r) = c :: r.
Proof. intros E. simpl. now rewrite E. Qed.

Lemma trim_idempotent (s : jsstring) : trim (trim s) = trim s.
Proof.
  unfold trim, trimEnd.
  destruct (trimStart (rev (trimStart s))) as [| c r] eqn:Ev; [reflexivity |].
  pose proof (trimStart_head _ _ _ Ev) as Hc.
  destruct (trimStart_split (rev (trimStart s))) as (w & Hw & _).
  rewrite Ev in Hw.
  assert (Hu : trimStart s = rev (c :: r) ++ rev w).
  { rewrite <- rev_app_distr, <- Hw. now rewrite rev_involutive. }
  destruct (rev (c :: r)) as [| c0 r0] eqn:Er.
  { apply (f_equal (@length N)) in Er. rewrite length_rev in Er. discriminate. }
  assert (Hc0 : isWhiteSpace c0 = false).
  { apply (trimStart_head s c0 (r0 ++ rev w)). exact Hu. }
  rewrite (trimStart_fixed c0 r0 Hc0), <- Er, rev_involutive.
  now rewrite (trimStart_fixed c r Hc).
Qed.

Lemma map_id_preserved (f : Todo -> Todo) (l : list Todo) :
  (forall t, id (f t) = id t) -> List.map id (List.map f l) = List.map id l.
Proof.
  intros Hf. rewrite List.map_map. apply List.map_ext. exact Hf.
Qed.

Lemma NoDup_map_filter {A B} (g : A -> B) (p : A -> bool) (l : list A) :
  List.NoDup (List.map g l) -> List.NoDup (List.map g (List.filter p l)).
Proof.
  induction l as [| x l IH]; simpl; intros Hnd; [constructor |].
  inversion Hnd as [| ? ? Hnotin Hnd']; subst.
  destruct (p x); simpl; [| now apply IH].
  constructor; [| now apply IH].
  intros Hin. apply Hnotin. apply List.in_map_iff in Hin as (y & Hy & Hin).
  apply List.in_map_iff. exists y. split; [exact Hy |].
  now apply List.filter_In in Hin.
Qed.

Lemma priorityOfString_priorityString (p : Priority) :
  priorityOfString (priorityString p) = Some p.
Proof. now destruct p. Qed.

(** Splits the page invariant into its five parts. *)
Ltac split_wellFormed :=
  unfold LocalPage.wellFormed;
  cbn -[In categoryOptions trim];
  split; [| split; [| split; [| split]]].

Section LocalPageFacts.
Variable Date_getTime : jsstring -> option Z.

Local Abbreviation wf := (LocalPage.wellFormed Date_getTime).
Local Abbreviation taskOk := (LocalPage.taskWellFormed Date_getTime).

(** Replacing tasks by tasks with the same id that are well formed keeps
    the collection part of the invariant. *)
Lemma todos_wellFormed_map (f : Todo -> Todo) (l : list Todo) :
  (forall t, id (f t) = id t) ->
  (forall t, In t l -> taskOk t -> taskOk (f t)) ->
  List.NoDup (List.map id l) /\ (forall t, In t l -> taskOk t) ->
  List.NoDup (List.map id (List.map f l))
  /\ (forall t, In t (List.map f l) -> taskOk t).
Proof.
  intros Hid Hok [Hnd Hall]. split.
  - now rewrite map_id_preserved.
  - intros t Ht. apply List.in_map_iff in Ht as (t0 & <- & Ht0).
    apply Hok; auto.
Qed.

Lemma setCompleted_wellFormed (c : bool) (t : Todo) :
  taskOk t -> taskOk (setCompleted c t).
Proof. intros H. exact H. Qed.

Lemma applyDraft_wellFormed (draft : FormFields) (t : Todo) :
  trim (form_text draft) <> [] ->
  LocalPage.formOffered Date_getTime draft ->
  taskOk (applyDraft draft t).
Proof.
  intros Hne [Hcat Hdate]. unfold LocalPage.taskWellFormed, applyDraft.
  cbn [text category dueDate].
  split; [exact Hne |]. split; [apply trim_idempotent |].
  split; [exact Hcat | exact Hdate].
Qed.

Lemma setField_wellFormed (field : EditField) (v : jsstring) (t : Todo) :
  LocalPage.fieldValueOffered Date_getTime field v ->
  taskOk t -> taskOk (setField field v t).
Proof.
  intros Hv (Ht & Htrim & Hcat & Hdate).
  destruct field; cbn [setField LocalPage.fieldValueOffered] in *.
  - split; [exact Ht |]. split; [exact Htrim |]. split; [exact Hv | exact Hdate].
  - destruct Hv as [p ->]. rewrite priorityOfString_priorityString.
    split; [exact Ht |]. split; [exact Htrim |].
    split; [exact Hcat | exact Hdate].
  - split; [exact Ht |]. split; [exact Htrim |]. split; [exact Hcat | exact Hv].
Qed.

Lemma setField_id (field : EditField) (v : jsstring) (t : Todo) :
  id (setField field v t) = id t.
Proof.
  destruct field; simpl; [reflexivity | | reflexivity].
  now destruct (priorityOfString v).
Qed.

Lemma changeOffered_form (c : LocalPage.FormChange) (f : FormFields) :
  LocalPage.changeOffered Date_getTime c ->
  LocalPage.formOffered Date_getTime f ->
  LocalPage.formOffered Date_getTime (LocalPage.updateForm c f).
Proof.
  intros Hc [Hcat Hdate]. destruct c; split; assumption.
Qed.

Lemma addTodo_wellFormed (uuid : jsstring) (s : Local.State) :
  wf s -> ~ In uuid (List.map id (Local.todos s)) ->
  wf (Local.addTodo uuid s).
Proof.
  intros (Hnd & Hall & Hform & Hedit & Hfield) Hfresh.
  unfold Local.addTodo.
  destruct (str_eqb (trim (form_text (Local.form s))) []) eqn:E.
  { split_wellFormed; assumption. }
  apply bool_decide_eq_false in E. destruct Hform as [Hcat Hdate].
  split_wellFormed.
  - rewrite List.map_app. apply NoDup_ListNoDup, NoDup_app. repeat split.
    + now apply NoDup_ListNoDup.
    + intros x Hx Hx'. apply list_elem_of_In in Hx.
      apply list_elem_of_In in Hx'. destruct Hx' as [<- | []]. contradiction.
    + apply NoDup_ListNoDup. repeat constructor. intros [].
  - intros t Ht. apply List.in_app_iff in Ht as [Ht | [<- | []]];
      [now apply Hall |].
    split; [exact E |]. split; [apply trim_idempotent |].
    split; [exact Hcat | exact Hdate].
  - split; [vm_compute; tauto | intros H; discriminate H].
  - exact Hedit.
  - exact Hfield.
Qed.

Lemma fire_wellFormed (s : Local.State) (e : LocalPage.Event) :
  wf s -> LocalPage.offered Date_getTime s e -> wf (LocalPage.fire e s).
Proof.
  intros Hwf Hoff.
  destruct e as [c | uuid | i | i | todo | c | | i | todo field | v | |];
    cbn [LocalPage.fire LocalPage.offered] in Hoff |- *;
    try (now apply addTodo_wellFormed);
    destruct Hwf as (Hnd & Hall & Hform & Hedit & Hfield).
  - (* handleCreateChange *)
    split_wellFormed; auto using changeOffered_form.
  - (* toggleTodo *)
    destruct (todos_wellFormed_map
                (fun todo => if str_eqb (id todo) i
                             then setCompleted (negb (completed todo)) todo
                             else todo) (Local.todos s)) as [Hnd' Hall'];
      [intros t; now destruct (str_eqb (id t) i)
      | intros t _ Ht; now destruct (str_eqb (id t) i)
      | now split |].
    split_wellFormed; assumption.
  - (* deleteTodo *)
    unfold Local.deleteTodo.
    assert (Hnd' : List.NoDup
                     (List.map id
                        (List.filter (fun todo => negb (str_eqb (id todo) i))
                                     (Local.todos s))))
      by now apply NoDup_map_filter.
    assert (Hall' : forall t,
               In t (List.filter (fun todo => negb (str_eqb (id todo) i))
                                 (Local.todos s)) -> taskOk t).
    { intros t Ht. apply List.filter_In in Ht. now apply Hall. }
    destruct (editingIs (Local.editingId s) i); split_wellFormed; assumption.
  - (* startEditing *)
    destruct (Hall todo Hoff) as (_ & _ & Hcat & Hdate).
    split_wellFormed; try assumption. now split.
  - (* handleEditChange *)
    split_wellFormed; auto using changeOffered_form.
  - (* cancelEditing *)
    split_wellFormed; assumption.
  - (* saveEditing *)
    unfold Local.saveEditing.
    destruct (str_eqb (trim (form_text (Local.editForm s))) []) eqn:E;
      [split_wellFormed; assumption |].
    apply bool_decide_eq_false in E.
    destruct (todos_wellFormed_map
                (fun todo => if str_eqb (id todo) i
                             then applyDraft (Local.editForm s) todo
                             else todo) (Local.todos s)) as [Hnd' Hall'];
      [intros t; now destruct (str_eqb (id t) i)
      | intros t _ Ht; destruct (str_eqb (id t) i);
        [now apply applyDraft_wellFormed | exact Ht]
      | now split |].
    split_wellFormed; assumption.
  - (* startFieldEditing *)
    destruct (Hall todo Hoff) as (_ & _ & Hcat & Hdate).
    unfold Local.startFieldEditing.
    destruct field; split_wellFormed; try assumption;
      intros fe [= <-]; cbn [fe_field LocalPage.fieldValueOffered];
      eauto.
  - (* setFieldEditValue *)
    destruct Hoff as (fe & Hfe & Hv).
    split_wellFormed; try assumption.
    intros fe' Hfe'. rewrite Hfe in Hfe'. now injection Hfe' as <-.
  - (* cancelFieldEditing *)
    split_wellFormed; try assumption. discriminate.
  - (* saveFieldEditing *)
    unfold Local.saveFieldEditing.
    destruct (Local.fieldEditing s) as [fe |] eqn:Efe.
    2:{ split_wellFormed; try assumption. now rewrite Efe. }
    destruct (todos_wellFormed_map
                (fun todo => if str_eqb (id todo) (fe_id fe)
                             then setField (fe_field fe)
                                    (Local.fieldEditValue s) todo
                             else todo) (Local.todos s)) as [Hnd' Hall'];
      [intros t; destruct (str_eqb (id t) (fe_id fe));
       [apply setField_id | reflexivity]
      | intros t _ Ht; destruct (str_eqb (id t) (fe_id fe));
        [apply setField_wellFormed; auto | exact Ht]
      | now split |].
    split_wellFormed; try assumption. discriminate.
Qed.

End LocalPageFacts.

Lemma initialState_wellFormed (Date_getTime : jsstring -> option Z) :
  LocalPage.wellFormed Date_getTime Local.initialState.
Proof.
  split_wellFormed.
  - constructor.
  - intros t [].
  - split; [vm_compute; tauto | intros H; discriminate H].
  - split; [vm_compute; tauto | intros H; discriminate H].
  - discriminate.
Qed.

Lemma reachable_wellFormed (Date_getTime : jsstring -> option Z)
  (s : Local.State) :
  LocalPage.reachable Date_getTime s -> LocalPage.wellFormed Date_getTime s.
Proof.
  induction 1 as [| s e Hs IH Hoff].
  - apply initialState_wellFormed.
  - now apply fire_wellFormed.
Qed.

(** X2.  Whatever the user does on the in-memory page, with ids that are new
    and the values its controls offer, the state keeps the data model:
    ids are unique, every stored text is non-empty and trimmed, every
    category is enumerated and every due date is a date or absent, and an
    open single-field session holds a value of its field.  So the
    per-category statistics never throw on such a state, their totals add
    up to the number of tasks, and the date sort has the dates it needs. *)
Theorem reachable_states_keep_the_data_model
  (Date_getTime : jsstring -> option Z) (s : Local.State) :
  LocalPage.reachable Date_getTime s ->
  LocalPage.wellFormed Date_getTime s
  /\ validDueDates Date_getTime (Local.todos s)
  /\ (exists stats,
         categoryStats (Local.todos s) = Returned stats
         /\ sumOver (totalOf stats) categoryOptions = length (Local.todos s))
  /\ (forall fe t,
         Local.fieldEditing s = Some fe -> fe_field fe = FieldPriority ->
         exists p,
           priorityOfString (Local.fieldEditValue s) = Some p
           /\ priority (setField FieldPriority (Local.fieldEditValue s) t) = p).
Proof.
  intros Hreach. pose proof (reachable_wellFormed _ _ Hreach) as Hwf.
  split; [exact Hwf |].
  destruct Hwf as (Hnd & Hall & Hform & Hedit & Hfield).
  split; [| split].
  - intros t Ht Hd. destruct (Hall t Ht) as (_ & _ & _ & Hdate).
    apply Hdate. unfold noDueDate in Hd. now apply negb_false_iff in Hd.
  - destruct (forEach_countTodo_enumerated (Local.todos s) initialStats
                initialStats_keys) as (stats & E & _ & T & _).
    { intros t Ht. now destruct (Hall t Ht) as (_ & _ & Hcat & _). }
    exists stats. split; [exact E |]. rewrite T.
    rewrite (sumOver_zero (totalOf initialStats));
      [reflexivity | intros c; apply initialStats_zero].
  - intros fe t Hfe Hf. specialize (Hfield fe Hfe). rewrite Hf in Hfield.
    destruct Hfield as [p Hp]. exists p. rewrite Hp.
    cbn [setField]. rewrite priorityOfString_priorityString.
    split; reflexivity.
Qed.

Lemma walkDog_reachable :
  LocalPage.reachable isoDateTime
    (LocalPage.fire (LocalPage.AddTodo (js "1"))
       (LocalPage.fire
          (LocalPage.CreateChange (LocalPage.changeDueDate (js "2024-02-01")))
          (LocalPage.fire
             (LocalPage.CreateChange (LocalPage.changeText (js "  Walk dog ")))
             Local.initialState))).
Proof.
  apply LocalPage.reachable_fire; [apply LocalPage.reachable_fire;
    [apply LocalPage.reachable_fire; [apply LocalPage.reachable_initial |] |] |].
  - exact I.
  - intros _. eexists. vm_compute. reflexivity.
  - intros [].
Defined.

Lemma reachable_states_keep_the_data_model_witness :
  LocalPage.wellFormed isoDateTime
    (LocalPage.fire (LocalPage.AddTodo (js "1"))
       (LocalPage.fire
          (LocalPage.CreateChange (LocalPage.changeDueDate (js "2024-02-01")))
          (LocalPage.fire
             (LocalPage.CreateChange (LocalPage.changeText (js "  Walk dog ")))
             Local.initialState))).
Proof.
  exact (proj1 (reachable_states_keep_the_data_model isoDateTime _
                  walkDog_reachable)).
Defined.

(** ** Editing a row and a field *)

Lemma NoDup_map_injective_on {A B} (g : A -> B) (l : list A) (a b : A) :
  List.NoDup (List.map g l) -> In a l -> In b l -> g a = g b -> a = b.
Proof.
  induction l as [| x l IH]; simpl; intros Hnd Ha Hb Hg; [destruct Ha |].
  inversion Hnd as [| ? ? Hnotin Hnd']; subst.
  destruct Ha as [-> | Ha], Hb as [-> | Hb]; auto.
  - exfalso. apply Hnotin. rewrite Hg. now apply List.in_map.
  - exfalso. apply Hnotin. rewrite <- Hg. now apply List.in_map.
Qed.

Lemma editChanges_keep_todos (changes : list LocalPage.FormChange) :
  forall s,
    Local.todos
      (List.fold_left (fun s c => LocalPage.handleEditChange c s) changes s)
    = Local.todos s
    /\ Local.editingId
         (List.fold_left (fun s c => LocalPage.handleEditChange c s) changes s)
       = Local.editingId s.
Proof.
  induction changes as [| c changes IH]; intros s; simpl; [now split |].
  destruct (IH (LocalPage.handleEditChange c s)) as [Ht He].
  now rewrite Ht, He.
Qed.

Lemma scenarioPage_wellFormed : LocalPage.wellFormed isoDateTime scenarioPage.
Proof.
  split_wellFormed.
  - vm_compute. repeat constructor; simpl; intuition discriminate.
  - intros t Ht. simpl in Ht.
    destruct Ht as [<- | [<- | [<- | []]]];
      (split; [vm_compute; discriminate |];
       split; [vm_compute; reflexivity |];
       split; [vm_compute; tauto |]);
      intros Hd; try discriminate Hd; eexists; vm_compute; reflexivity.
  - split; [vm_compute; tauto | intros H; discriminate H].
  - split; [vm_compute; tauto | intros H; discriminate H].
  - discriminate.
Qed.

(** X3.  On a state that keeps the data model, for a task [t] of the
    collection: opening the row editor on [t] and saving at once leaves
    the collection as it is, and so does opening the editor of any single
    field and saving at once.  After any changes to the row draft, cancel
    leaves the collection as it is; save with a blank text changes nothing
    at all (the session stays open); save with a non-blank text replaces
    [t], at its place, by the task with [t]'s id and completed flag and
    the draft's trimmed text, category, priority and due date, leaves
    every other task as it is and closes the session. *)
Theorem row_edit_commits_only_the_edited_task
  (Date_getTime : jsstring -> option Z) (s : Local.State) (t : Todo) :
  LocalPage.wellFormed Date_getTime s ->
  In t (Local.todos s) ->
  Local.todos (Local.saveEditing (id t) (Local.startEditing t s))
  = Local.todos s
  /\ (forall field,
         Local.todos
           (Local.saveFieldEditing (Local.startFieldEditing t field s))
         = Local.todos s)
  /\ (forall changes,
         let s1 := List.fold_left
                     (fun s c => LocalPage.handleEditChange c s) changes
                     (Local.startEditing t s) in
         let draft := Local.editForm s1 in
         Local.todos (Local.cancelEditing s1) = Local.todos s
         /\ (trim (form_text draft) = [] ->
             Local.saveEditing (id t) s1 = s1
             /\ Local.editingId s1 = Some (id t))
         /\ (trim (form_text draft) <> [] ->
             Local.editingId (Local.saveEditing (id t) s1) = None
             /\ forall (n : nat) (t0 : Todo),
                 Local.todos s !! n = Some t0 ->
                 Local.todos (Local.saveEditing (id t) s1) !! n
                 = Some (if decide (t0 = t)
                         then mkTodo (id t) (trim (form_text draft))
                                     (form_category draft)
                                     (form_priority draft)
                                     (form_dueDate draft) (completed t)
                         else t0))).
Proof.
  intros (Hnd & Hall & _) Hin.
  assert (Hsame : forall t0, In t0 (Local.todos s) ->
                             str_eqb (id t0) (id t) = true -> t0 = t).
  { intros t0 Ht0 E. apply str_eqb_eq in E.
    now apply (NoDup_map_injective_on id (Local.todos s)). }
  destruct (Hall t Hin) as (Hne & Htrim & _).
  split; [| split].
  - unfold Local.saveEditing, Local.startEditing.
    cbn [Local.editForm Local.setEditForm Local.setEditingId form_text].
    rewrite Htrim, (proj2 (str_eqb_neq _ _) Hne).
    cbn [Local.todos Local.setTodos Local.setEditingId Local.setEditForm].
    apply map_id_on. intros t0 Ht0.
    destruct (str_eqb (id t0) (id t)) eqn:E; [| reflexivity].
    rewrite (Hsame t0 Ht0 E). unfold applyDraft. cbn [form_text form_category
      form_priority form_dueDate]. rewrite Htrim. now destruct t.
  - intros field. unfold Local.saveFieldEditing, Local.startFieldEditing.
    destruct field;
      cbn [Local.fieldEditing Local.setFieldEditing Local.setFieldEditValue
           Local.fieldEditValue Local.todos Local.setTodos fe_id fe_field];
      apply map_id_on; intros t0 Ht0;
      (destruct (str_eqb (id t0) (id t)) eqn:E; [| reflexivity]);
      rewrite (Hsame t0 Ht0 E); cbn [setField];
      rewrite ?priorityOfString_priorityString; now destruct t.
  - intros changes s1 draft.
    destruct (editChanges_keep_todos changes (Local.startEditing t s))
      as [Htodos Hedit].
    fold s1 in Htodos, Hedit. cbn in Htodos, Hedit.
    split; [exact Htodos |]. split.
    + intros Hblank. split; [| exact Hedit].
      unfold Local.saveEditing. fold draft.
      now rewrite (proj2 (str_eqb_eq _ _) Hblank).
    + intros Hfull. unfold Local.saveEditing. fold draft.
      rewrite (proj2 (str_eqb_neq _ _) Hfull).
      split; [reflexivity |].
      intros n t0 Hn.
      cbn [Local.todos Local.setTodos Local.setEditingId].
      rewrite Htodos, list_lookup_fmap, Hn. cbn [fmap option_fmap option_map].
      f_equal.
      assert (Ht0 : In t0 (Local.todos s)).
      { apply list_elem_of_In. eapply list_elem_of_lookup_2; eauto. }
      destruct (str_eqb (id t0) (id t)) eqn:E.
      * rewrite (Hsame t0 Ht0 E). rewrite decide_True by reflexivity.
        reflexivity.
      * rewrite decide_False; [reflexivity |].
        intros ->. apply str_eqb_neq in E. now apply E.
Qed.

Lemma row_edit_commits_only_the_edited_task_witness :
  Local.todos
    (Local.saveEditing (id reviewPR) (Local.startEditing reviewPR scenarioPage))
  = scenario.
Proof.
  exact (proj1 (row_edit_commits_only_the_edited_task isoDateTime scenarioPage
                  reviewPR scenarioPage_wellFormed
                  (or_intror (or_intror (or_introl eq_refl))))).
Defined.

(** ** Laws of the sort under a consistent comparator *)

Section SortLaws.
Context {A : Type}.
Variable comparefn : A -> A -> option Z.
Variable P : A -> Prop.

Local Abbreviation sc := (sortCompare comparefn).
Local Abbreviation notAfter := (fun x y : A => sortCompare comparefn x y <= 0).

Hypothesis sc_trans :
  forall x y z, P x -> P y -> P z -> sc x y <= 0 -> sc y z <= 0 -> sc x z <= 0.
Hypothesis sc_asym :
  forall x y, P x -> P y -> 0 < sc x y -> sc y x <= 0.

Lemma Array_sort_ordered (l : list A) :
  Forall P l -> StronglySorted notAfter (Array_sort comparefn l).
Proof.
  apply (Array_sort_sorted comparefn P notAfter).
  - exact sc_trans.
  - exact sc_asym.
  - intros x y _ _ H. exact H.
Qed.

Lemma Array_sort_of_sorted (l : list A) :
  StronglySorted notAfter l -> Array_sort comparefn l = l.
Proof.
  induction 1 as [| x rest Hs IH Hx]; [reflexivity |].
  simpl. rewrite IH. destruct rest as [| y rest']; [reflexivity |].
  simpl. inversion Hx as [| ? ? Hxy _]; subst.
  destruct (Z.ltb_spec 0 (sortCompare comparefn x y)); [lia | reflexivity].
Qed.

Lemma sort_insert_between (x : A) (a b : list A) :
  Forall (fun y => 0 < sc x y) a -> Forall (notAfter x) b ->
  sort_insert comparefn x (a ++ b) = a ++ x :: b.
Proof.
  intros Ha Hb. induction Ha as [| y a Hy Ha IH]; simpl.
  - destruct Hb as [| z b Hz Hb]; [reflexivity |]. simpl.
    destruct (Z.ltb_spec 0 (sortCompare comparefn x z)); [lia | reflexivity].
  - destruct (Z.ltb_spec 0 (sortCompare comparefn x y)); [| lia].
    now rewrite IH.
Qed.

Lemma sorted_split_at (x : A) (l : list A) :
  P x -> Forall P l -> StronglySorted notAfter l ->
  exists a b, l = a ++ b
              /\ Forall (fun y => 0 < sc x y) a /\ Forall (notAfter x) b.
Proof.
  intros Px Pl Hs. induction Hs as [| y rest Hs IH Hy].
  - exists [], []. repeat split; constructor.
  - inversion Pl as [| ? ? Py Prest]; subst.
    destruct (Z.ltb_spec 0 (sortCompare comparefn x y)) as [Hpos | Hnp].
    + destruct (IH Prest) as (a & b & -> & Ha & Hb).
      exists (y :: a), b. repeat split; [now constructor | exact Hb].
    + exists [], (y :: rest). repeat split; [constructor |].
      constructor; [exact Hnp |].
      rewrite List.Forall_forall in Hy, Prest |- *.
      intros z Hz. apply (sc_trans x y z); auto.
Qed.

Lemma Forall_filter_keep {B} (Q : B -> Prop) (p : B -> bool) (l : list B) :
  Forall Q l -> Forall Q (List.filter p l).
Proof.
  rewrite !List.Forall_forall. intros H x Hx.
  apply List.filter_In in Hx. now apply H.
Qed.

Lemma sort_insert_filter_commute (p : A -> bool) (x : A) (l : list A) :
  P x -> Forall P l -> StronglySorted notAfter l ->
  List.filter p (sort_insert comparefn x l)
  = if p x then sort_insert comparefn x (List.filter p l)
    else List.filter p l.
Proof.
  intros Px Pl Hs.
  destruct (sorted_split_at x l Px Pl Hs) as (a & b & -> & Ha & Hb).
  rewrite (sort_insert_between x a b Ha Hb).
  rewrite !List.filter_app. simpl. destruct (p x); [| reflexivity].
  symmetry. apply sort_insert_between; now apply Forall_filter_keep.
Qed.

Lemma Array_sort_filter_commute (p : A -> bool) (l : list A) :
  Forall P l ->
  List.filter p (Array_sort comparefn l)
  = Array_sort comparefn (List.filter p l).
Proof.
  induction l as [| x rest IH]; intros Pl; [reflexivity |].
  inversion Pl as [| ? ? Px Prest]; subst. simpl.
  rewrite sort_insert_filter_commute; auto.
  - destruct (p x); simpl; now rewrite IH.
  - apply List.Forall_forall. intros z Hz.
    apply (proj1 (Array_sort_In _ _ _)) in Hz.
    rewrite List.Forall_forall in Prest. now apply Prest.
  - now apply Array_sort_ordered.
Qed.

End SortLaws.

Lemma codeUnitCompare_trans (a : jsstring) :
  forall b c, codeUnitCompare a b <= 0 -> codeUnitCompare b c <= 0 ->
              codeUnitCompare a c <= 0.
Proof.
  induction a as [| x a IH]; intros [| y b] [| z c]; simpl; try lia.
  destruct (N.ltb_spec x y), (N.ltb_spec y x), (N.ltb_spec y z),
    (N.ltb_spec z y), (N.ltb_spec x z), (N.ltb_spec z x);
    try lia; apply IH.
Qed.

Lemma codeUnitCompare_asym (a : jsstring) :
  forall b, 0 < codeUnitCompare a b -> codeUnitCompare b a <= 0.
Proof.
  induction a as [| x a IH]; intros [| y b]; simpl; try lia.
  destruct (N.ltb_spec x y), (N.ltb_spec y x); try lia. apply IH.
Qed.

Lemma codeUnitCompare_consistent : collationConsistent codeUnitCompare.
Proof.
  split; [intros a b c; apply codeUnitCompare_trans
         | intros a b; apply codeUnitCompare_asym].
Qed.

Lemma filter_keeps_all {A} (f : A -> bool) (l : list A) :
  (forall x, In x l -> f x = true) -> List.filter f l = l.
Proof.
  induction l as [| x l IH]; simpl; intros Hf; [reflexivity |].
  rewrite Hf by now left. rewrite IH; [reflexivity |].
  intros y Hy. apply Hf. now right.
Qed.

Section ViewLaws.
Variable Date_getTime : jsstring -> option Z.
Variable localeCompare : jsstring -> jsstring -> Z.

Local Abbreviation view := (filteredAndSortedTodos Date_getTime localeCompare).
Local Abbreviation cmp := (compareTodos Date_getTime localeCompare).
Local Abbreviation readable := (keyReadable Date_getTime).

Lemma compareTodos_trans (sortBy : SortType) (todos : list Todo) :
  sortKeyConsistent Date_getTime localeCompare sortBy todos ->
  forall x y z, readable sortBy x -> readable sortBy y -> readable sortBy z ->
    sortCompare (cmp sortBy) x y <= 0 -> sortCompare (cmp sortBy) y z <= 0 ->
    sortCompare (cmp sortBy) x z <= 0.
Proof.
  intros Hk x y z Px Py Pz. unfold sortCompare.
  destruct sortBy; cbn [compareTodos keyReadable sortKeyConsistent] in *.
  - unfold noDueDate in *.
    destruct (truthy (dueDate x)) eqn:Ex, (truthy (dueDate y)) eqn:Ey,
      (truthy (dueDate z)) eqn:Ez; simpl; try lia.
    destruct (Px eq_refl) as [tx ->], (Py eq_refl) as [ty ->],
      (Pz eq_refl) as [tz ->]. lia.
  - lia.
  - apply (proj1 Hk).
  - apply (proj1 Hk).
Qed.

Lemma compareTodos_asym (sortBy : SortType) (todos : list Todo) :
  sortKeyConsistent Date_getTime localeCompare sortBy todos ->
  forall x y, readable sortBy x -> readable sortBy y ->
    0 < sortCompare (cmp sortBy) x y -> sortCompare (cmp sortBy) y x <= 0.
Proof.
  intros Hk x y Px Py. unfold sortCompare.
  destruct sortBy; cbn [compareTodos keyReadable sortKeyConsistent] in *.
  - unfold noDueDate in *.
    destruct (truthy (dueDate x)) eqn:Ex, (truthy (dueDate y)) eqn:Ey;
      simpl; try lia.
    destruct (Px eq_refl) as [tx ->], (Py eq_refl) as [ty ->]. lia.
  - lia.
  - apply (proj2 Hk).
  - apply (proj2 Hk).
Qed.

Lemma filtered_readable (flt : FilterType) (categoryFilter : jsstring)
  (sortBy : SortType) (todos : list Todo) :
  sortKeyConsistent Date_getTime localeCompare sortBy todos ->
  Forall (readable sortBy) (filterTodos flt categoryFilter todos).
Proof.
  intros Hk. apply List.Forall_forall. intros t Ht.
  rewrite filterTodos_spec in Ht. apply List.filter_In in Ht as [Ht _].
  destruct sortBy; cbn [keyReadable sortKeyConsistent] in *; auto.
Qed.

(** X10.  For every sort key whose comparator is consistent on the collection
    (readable due dates under [date], an ordering collation under
    [category] and [name], always under [priority]) the view holds the
    tasks that pass the filter in an order the comparator agrees with: it
    puts no row after a later row.  Under [name] the texts, and under
    [category] the categories, of any two rows never compare descending. *)
Theorem view_is_in_comparator_order
  (flt : FilterType) (categoryFilter : jsstring) (sortBy : SortType)
  (todos : list Todo) :
  sortKeyConsistent Date_getTime localeCompare sortBy todos ->
  let v := view flt categoryFilter sortBy todos in
  Permutation v (filterTodos flt categoryFilter todos)
  /\ inComparatorOrder (cmp sortBy) v
  /\ (sortBy = SortName ->
      forall (i j : nat) a b,
        (i < j)%nat -> v !! i = Some a -> v !! j = Some b ->
        localeCompare (text a) (text b) <= 0)
  /\ (sortBy = SortCategory ->
      forall (i j : nat) a b,
        (i < j)%nat -> v !! i = Some a -> v !! j = Some b ->
        localeCompare (category a) (category b) <= 0).
Proof.
  intros Hk v. subst v.
  assert (Hs : StronglySorted
                 (fun x y => sortCompare (cmp sortBy) x y <= 0)
                 (view flt categoryFilter sortBy todos)).
  { apply (Array_sort_ordered (cmp sortBy) (readable sortBy)).
    - now apply (compareTodos_trans sortBy todos).
    - now apply (compareTodos_asym sortBy todos).
    - now apply filtered_readable. }
  assert (Ho : inComparatorOrder (cmp sortBy)
                 (view flt categoryFilter sortBy todos)).
  { intros i j a b Hij Ha Hb.
    exact (StronglySorted_lookup _ _ Hs i j a b Hij Ha Hb). }
  split; [apply Array_sort_perm |]. split; [exact Ho |]. split.
  - intros -> i j a b Hij Ha Hb. exact (Ho i j a b Hij Ha Hb).
  - intros -> i j a b Hij Ha Hb. exact (Ho i j a b Hij Ha Hb).
Qed.


(** X12.  For every sort key whose comparator is consistent on the collection:
    sorting the view again changes nothing; applying the same selectors to
    the view gives the view; and the view under any filter is the view
    under no filter with the tasks that do not pass taken out, so
    narrowing the filter never reorders the rows that stay. *)
Theorem view_sort_and_filter_commute
  (flt : FilterType) (categoryFilter : jsstring) (sortBy : SortType)
  (todos : list Todo) :
  sortKeyConsistent Date_getTime localeCompare sortBy todos ->
  let v := view flt categoryFilter sortBy todos in
  Array_sort (cmp sortBy) v = v
  /\ view flt categoryFilter sortBy v = v
  /\ v = List.filter (passes flt categoryFilter)
                     (view FilterAll (js "all") sortBy todos).
Proof.
  intros Hk v. subst v.
  assert (Hs : StronglySorted
                 (fun x y => sortCompare (cmp sortBy) x y <= 0)
                 (view flt categoryFilter sortBy todos)).
  { apply (Array_sort_ordered (cmp sortBy) (readable sortBy)).
    - now apply (compareTodos_trans sortBy todos).
    - now apply (compareTodos_asym sortBy todos).
    - now apply filtered_readable. }
  assert (Hfix : Array_sort (cmp sortBy) (view flt categoryFilter sortBy todos)
                 = view flt categoryFilter sortBy todos)
    by now apply Array_sort_of_sorted.
  split; [exact Hfix |]. split.
  - unfold filteredAndSortedTodos at 1. rewrite filterTodos_spec.
    rewrite filter_keeps_all; [exact Hfix |].
    intros t Ht. apply (proj1 (Array_sort_In _ _ _)) in Ht.
    rewrite filterTodos_spec in Ht. now apply List.filter_In in Ht.
  - unfold filteredAndSortedTodos.
    rewrite (filterTodos_spec FilterAll (js "all")).
    rewrite (filter_all_true _ todos) by reflexivity.
    rewrite (Array_sort_filter_commute (cmp sortBy) (readable sortBy)).
    + now rewrite filterTodos_spec.
    + now apply (compareTodos_trans sortBy todos).
    + now apply (compareTodos_asym sortBy todos).
    + exact (filtered_readable FilterAll (js "all") sortBy todos Hk).
Qed.

End ViewLaws.

Lemma view_is_in_comparator_order_witness :
  inComparatorOrder (compareTodos isoDateTime codeUnitCompare SortName)
    (filteredAndSortedTodos isoDateTime codeUnitCompare
       FilterAll (js "all") SortName scenario).
Proof.
  exact (proj1 (proj2 (view_is_in_comparator_order isoDateTime codeUnitCompare
                         FilterAll (js "all") SortName scenario
                         codeUnitCompare_consistent))).
Defined.

Lemma view_sort_and_filter_commute_witness :
  filteredAndSortedTodos isoDateTime codeUnitCompare
    FilterPending (js "업무") SortName scenario
  = List.filter (passes FilterPending (js "업무"))
      (filteredAndSortedTodos isoDateTime codeUnitCompare
         FilterAll (js "all") SortName scenario).
Proof.
  exact (proj2 (proj2 (view_sort_and_filter_commute isoDateTime codeUnitCompare
                         FilterPending (js "업무") SortName scenario
                         codeUnitCompare_consistent))).
Defined.

(** ** Counters, statistics and the list panel *)

Lemma filter_negb_length {A} (f : A -> bool) (l : list A) :
  (length (List.filter f l) + length (List.filter (fun x => negb (f x)) l)
   = length l)%nat.
Proof.
  induction l as [| x l IH]; simpl; [reflexivity |].
  destruct (f x); simpl; lia.
Qed.

Lemma filter_perm {A} (f : A -> bool) (l l' : list A) :
  Permutation l l' -> Permutation (List.filter f l) (List.filter f l').
Proof.
  induction 1 as [| x l l' _ IH | x y l | l l' l'' _ IH1 _ IH2]; simpl.
  - constructor.
  - destruct (f x); [now constructor | exact IH].
  - destruct (f x), (f y); try reflexivity. apply perm_swap.
  - now transitivity (List.filter f l').
Qed.

(** X7.  The two counters split the collection: completed and pending add up to
    the number of tasks.  Each counter is the number of rows its status
    filter shows when the category selector is at [all], whatever the sort
    key, and with no filter at all the view has every task. *)
Theorem counters_split_the_collection
  (Date_getTime : jsstring -> option Z)
  (localeCompare : jsstring -> jsstring -> Z) (todos : list Todo) :
  (completedCount todos + pendingCount todos = length todos)%nat
  /\ forall sortBy,
      length (filteredAndSortedTodos Date_getTime localeCompare
                FilterCompleted (js "all") sortBy todos)
      = completedCount todos
      /\ length (filteredAndSortedTodos Date_getTime localeCompare
                   FilterPending (js "all") sortBy todos)
         = pendingCount todos
      /\ length (filteredAndSortedTodos Date_getTime localeCompare
                   FilterAll (js "all") sortBy todos)
         = length todos.
Proof.
  split; [apply (filter_negb_length (fun todo => completed todo)) |].
  intros sortBy. unfold filteredAndSortedTodos.
  rewrite !Array_sort_length. repeat split.
Qed.

(** One task of an enumerated category: the record of that category gains
    it, every other record stays. *)
Lemma countTodo_counts (stats : gmap jsstring CategoryStat) (todo : Todo) :
  enumeratedKeys stats -> In (category todo) categoryOptions ->
  exists stats',
    countTodo stats todo = Returned stats'
    /\ enumeratedKeys stats'
    /\ forall c,
        totalOf stats' c
        = (totalOf stats c
           + (if str_eqb (category todo) c then 1 else 0))%nat
        /\ completedOf stats' c
           = (completedOf stats c
              + (if str_eqb (category todo) c && completed todo
                 then 1 else 0))%nat.
Proof.
  intros Hkeys Hcat.
  destruct (countTodo_enumerated stats todo Hkeys Hcat)
    as (stats' & E & K & _).
  exists stats'. split; [exact E |]. split; [exact K |].
  destruct (proj2 (Hkeys (category todo)) Hcat) as [r Hr].
  unfold countTodo, stats_get in E. rewrite Hr in E. injection E as <-.
  intros c. unfold totalOf, completedOf.
  destruct (str_eqb (category todo) c) eqn:Ec.
  - apply str_eqb_eq in Ec. subst c. rewrite lookup_insert_eq, Hr.
    destruct (completed todo); simpl; split; lia.
  - apply str_eqb_neq in Ec. rewrite lookup_insert_ne by exact Ec.
    simpl. split; lia.
Qed.

Lemma forEach_countTodo_counts (todos : list Todo) :
  forall stats,
    enumeratedKeys stats ->
    (forall t, In t todos -> In (category t) categoryOptions) ->
    exists stats',
      forEach_countTodo todos stats = Returned stats'
      /\ forall c,
          totalOf stats' c
          = (totalOf stats c
             + length (List.filter
                         (fun t => str_eqb (category t) c) todos))%nat
          /\ completedOf stats' c
             = (completedOf stats c
                + length (List.filter
                            (fun t => str_eqb (category t) c && completed t)
                            todos))%nat.
Proof.
  induction todos as [| todo rest IH]; intros stats Hkeys Hall.
  - exists stats. split; [reflexivity |]. intros c. simpl. split; lia.
  - destruct (countTodo_counts stats todo Hkeys (Hall _ (or_introl eq_refl)))
      as (stats1 & E1 & K1 & H1).
    destruct (IH stats1 K1 (fun t Ht => Hall t (or_intror Ht)))
      as (stats' & E' & H').
    exists stats'. cbn [forEach_countTodo]. rewrite E1.
    split; [exact E' |]. intros c.
    destruct (H' c) as [Ht Hc], (H1 c) as [Ht1 Hc1].
    rewrite Ht, Hc, Ht1, Hc1. cbn [List.filter].
    destruct (str_eqb (category todo) c), (completed todo); simpl; split; lia.
Qed.

(** X8.  When every task's category is enumerated, the statistics hold for
    each enumerated category exactly the number of tasks of that category
    and the number of completed ones among them: the numbers of rows the
    page shows for that category under the status filters [all] and
    [completed].  The completed count of a category never exceeds its
    total, and the statistics do not depend on the order of the tasks. *)
Theorem categoryStats_counts_each_category
  (Date_getTime : jsstring -> option Z)
  (localeCompare : jsstring -> jsstring -> Z) (todos : list Todo) :
  (forall t, In t todos -> In (category t) categoryOptions) ->
  exists stats,
    categoryStats todos = Returned stats
    /\ (forall c sortBy,
           In c categoryOptions ->
           totalOf stats c
           = length (filteredAndSortedTodos Date_getTime localeCompare
                       FilterAll c sortBy todos)
           /\ completedOf stats c
              = length (filteredAndSortedTodos Date_getTime localeCompare
                          FilterCompleted c sortBy todos)
           /\ (completedOf stats c <= totalOf stats c)%nat)
    /\ (forall todos',
           Permutation todos todos' ->
           exists stats',
             categoryStats todos' = Returned stats'
             /\ forall c, totalOf stats' c = totalOf stats c
                          /\ completedOf stats' c = completedOf stats c).
Proof.
  intros Hall.
  destruct (forEach_countTodo_counts todos initialStats initialStats_keys Hall)
    as (stats & E & Hcount).
  exists stats. split; [exact E |]. split.
  - intros c sortBy Hc.
    assert (Hnotall : str_eqb c (js "all") = false).
    { apply str_eqb_neq. intros ->. revert Hc. vm_compute.
      intuition discriminate. }
    destruct (Hcount c) as [Ht Hcm].
    destruct (initialStats_zero c) as [Z1 Z2]. rewrite Z1 in Ht.
    rewrite Z2 in Hcm. simpl in Ht, Hcm.
    unfold filteredAndSortedTodos. rewrite !Array_sort_length.
    unfold filterTodos. rewrite Hnotall. cbn [negb].
    assert (Hcomp :
              length (List.filter (fun t => str_eqb (category t) c && completed t)
                                  todos)
              = length (List.filter (fun todo => str_eqb (category todo) c)
                          (List.filter (fun todo => completed todo) todos))).
    { rewrite filter_filter_andb. f_equal. apply List.filter_ext.
      intros t. apply andb_comm. }
    split; [exact Ht |]. split; [now rewrite Hcm |].
    rewrite Ht, Hcm. clear. induction todos as [| t l IH]; simpl; [lia |].
    destruct (str_eqb (category t) c), (completed t); simpl; lia.
  - intros todos' Hperm.
    destruct (forEach_countTodo_counts todos' initialStats initialStats_keys)
      as (stats' & E' & Hcount').
    { intros t Ht. apply Hall. now apply (Permutation_in _ (Permutation_sym Hperm)). }
    exists stats'. split; [exact E' |]. intros c.
    destruct (Hcount c) as [Ht Hcm], (Hcount' c) as [Ht' Hcm'].
    rewrite Ht, Hcm, Ht', Hcm'.
    split; f_equal; apply Permutation_length; symmetry;
      now apply filter_perm.
Qed.

Lemma categoryStats_counts_each_category_witness :
  exists stats,
    categoryStats scenario = Returned stats
    /\ totalOf stats (js "업무") = 2%nat
    /\ totalOf stats (js "개인") = 1%nat.
Proof.
  destruct (categoryStats_counts_each_category isoDateTime codeUnitCompare
              scenario) as (stats & E & Hc & _).
  - intros t Ht. simpl in Ht.
    destruct Ht as [<- | [<- | [<- | []]]]; vm_compute; tauto.
  - exists stats. split; [exact E |]. split.
    + rewrite (proj1 (Hc (js "업무") SortDate
                        ltac:(vm_compute; tauto))).
      vm_compute. reflexivity.
    + rewrite (proj1 (Hc (js "개인") SortDate
                        ltac:(vm_compute; tauto))).
      vm_compute. reflexivity.
Defined.

(** X9.  The list card shows the notice that nothing matches exactly when the
    collection is not empty and no task passes both predicates of the
    filter; with both selectors at [all] it never shows it.  When it shows
    rows, they are the view, which is then not empty, and the number of
    rows is the number of tasks that pass.  While loading, the persisted
    page shows the loading notice whatever the collection. *)
Theorem listPanel_notices
  (Date_getTime : jsstring -> option Z)
  (localeCompare : jsstring -> jsstring -> Z)
  (flt : FilterType) (categoryFilter : jsstring) (sortBy : SortType)
  (todos : list Todo) :
  let v := filteredAndSortedTodos Date_getTime localeCompare
             flt categoryFilter sortBy todos in
  (listPanel false todos v = PanelNoMatch <->
   todos <> [] /\ forall t, In t todos -> passes flt categoryFilter t = false)
  /\ listPanel false todos
       (filteredAndSortedTodos Date_getTime localeCompare
          FilterAll (js "all") sortBy todos) <> PanelNoMatch
  /\ (listPanel false todos v = PanelEmpty <-> todos = [])
  /\ (forall rows,
         listPanel false todos v = PanelRows rows ->
         rows = v /\ rows <> []
         /\ length rows
            = length (List.filter (passes flt categoryFilter) todos))
  /\ listPanel true todos v = PanelLoading.
Proof.
  intros v. subst v.
  assert (Hlen : length (filteredAndSortedTodos Date_getTime localeCompare
                           flt categoryFilter sortBy todos)
                 = length (List.filter (passes flt categoryFilter) todos)).
  { unfold filteredAndSortedTodos.
    now rewrite Array_sort_length, filterTodos_spec. }
  assert (Hnone : forall l : list Todo,
             length (List.filter (passes flt categoryFilter) l) = 0%nat <->
             forall t, In t l -> passes flt categoryFilter t = false).
  { induction l as [| x l IH]; simpl.
    - split; [intros _ t [] | reflexivity].
    - destruct (passes flt categoryFilter x) eqn:E; simpl.
      + split; [discriminate |]. intros H.
        specialize (H x (or_introl eq_refl)). congruence.
      + rewrite IH. split; [intros H t [<- | Ht]; auto | intros H t Ht; auto]. }
  unfold listPanel. split; [| split; [| split; [| split]]].
  - rewrite Hlen. destruct todos as [| t0 l]; [split; [discriminate | intros [H _]; congruence] |].
    cbn [length Nat.eqb].
    destruct (length (List.filter (passes flt categoryFilter) (t0 :: l)) =? 0)%nat
      eqn:E.
    + apply Nat.eqb_eq in E. split; [| reflexivity].
      intros _. split; [discriminate | now apply Hnone].
    + apply Nat.eqb_neq in E. split; [discriminate |].
      intros [_ H]. exfalso. apply E. now apply Hnone.
  - destruct todos as [| t0 l]; [discriminate |]. cbn [length Nat.eqb].
    unfold filteredAndSortedTodos. rewrite Array_sort_length.
    rewrite filterTodos_spec, filter_all_true by reflexivity.
    discriminate.
  - destruct todos as [| t0 l]; [split; reflexivity |]. cbn [length Nat.eqb].
    destruct (_ =? 0)%nat; split; discriminate.
  - intros rows. destruct todos as [| t0 l]; [discriminate |].
    cbn [length Nat.eqb].
    destruct (length _ =? 0)%nat eqn:E; [discriminate |].
    intros [= <-]. split; [reflexivity |]. split; [| exact Hlen].
    intros H. rewrite H in E. discriminate.
  - reflexivity.
Qed.

(** ** Remote writes of the persisted page *)

(** X14.  A create that reaches the store: while the insert is in flight a
    second submission issues nothing; a refused insert leaves the form as
    it is for a retry, and the collection too, and reports the error; an
    accepted insert adds one task, resets the form and clears the
    feedback; either way the in-flight flag is cleared again. *)
Theorem persisted_create_guards_and_resets
  (s s1 : Persisted.State) (req : Persisted.Request)
  (k : Persisted.Response -> Persisted.State -> Persisted.State) :
  Persisted.addTodo s = Persisted.Await s1 req k ->
  Persisted.isSubmitting s1 = true
  /\ Persisted.addTodo s1 = Persisted.Done s1
  /\ (forall err s2,
         let s' := k (Persisted.Failure err) s2 in
         Persisted.form s' = Persisted.form s2
         /\ Persisted.todos s' = Persisted.todos s2
         /\ Persisted.isSubmitting s' = false
         /\ Persisted.feedback s'
            = Some (Persisted.mkFeedback Persisted.error
                      Persisted.msgAddFailed))
  /\ (forall row s2,
         let s' := k (Persisted.Success (Some row)) s2 in
         Persisted.form s' = emptyForm
         /\ length (Persisted.todos s') = S (length (Persisted.todos s2))
         /\ Persisted.isSubmitting s' = false
         /\ Persisted.feedback s' = None).
Proof.
  unfold Persisted.addTodo.
  destruct (Persisted.session s) as [sess |] eqn:Es; [| discriminate].
  destruct (str_eqb (trim (form_text (Persisted.form s))) []) eqn:Et;
    [discriminate |].
  destruct (Persisted.isSubmitting s) eqn:Ei; [discriminate |].
  cbn [orb]. intros [= <- <- <-].
  split; [reflexivity |]. split.
  - cbn [Persisted.session Persisted.setIsSubmitting Persisted.form
         Persisted.isSubmitting].
    now rewrite Es, Et.
  - split; intros; repeat split.
Qed.

Lemma persisted_create_guards_and_resets_witness :
  exists s1,
    Persisted.isSubmitting s1 = true
    /\ Persisted.addTodo s1 = Persisted.Done s1.
Proof.
  destruct (persisted_create_guards_and_resets
              (Persisted.setForm walkDogForm (Persisted.scenarioState [buyMilk]))
              _ _ _ eq_refl) as (H1 & H2 & _).
  eexists. split; [exact H1 | exact H2].
Defined.

(** X15.  Saving a row or a single field on the persisted page.  Without a
    session, with a blank row text or with no field session open, nothing
    is sent and the state is as before.  Otherwise one update is sent, for
    the row with the trimmed text and an empty due date as [null].  A
    refused update keeps the edit session and its draft, so the user can
    try again; an accepted one closes the session and leaves the ids and
    the completed flags of all tasks as they are. *)
Theorem persisted_saves_keep_the_session_on_refusal
  (i : jsstring) (s : Persisted.State) :
  match Persisted.saveEditing i s with
  | Persisted.Done s' =>
    s' = s
    /\ (Persisted.session s = None
        \/ trim (form_text (Persisted.editForm s)) = [])
  | Persisted.Await s1 req k =>
    s1 = s
    /\ trim (form_text (Persisted.editForm s)) <> []
    /\ req = Persisted.Update i
               [ Persisted.col_text (trim (form_text (Persisted.editForm s)));
                 Persisted.col_category (form_category (Persisted.editForm s));
                 Persisted.col_priority
                   (priorityString (form_priority (Persisted.editForm s)));
                 Persisted.col_due_date
                   (if truthy (form_dueDate (Persisted.editForm s))
                    then Some (form_dueDate (Persisted.editForm s))
                    else None) ]
    /\ (forall err s2,
           Persisted.editingId (k (Persisted.Failure err) s2)
           = Persisted.editingId s2
           /\ Persisted.editForm (k (Persisted.Failure err) s2)
              = Persisted.editForm s2)
    /\ (forall data s2,
           Persisted.editingId (k (Persisted.Success data) s2) = None
           /\ List.map id (Persisted.todos (k (Persisted.Success data) s2))
              = List.map id (Persisted.todos s2)
           /\ List.map completed
                (Persisted.todos (k (Persisted.Success data) s2))
              = List.map completed (Persisted.todos s2))
  end
  /\ match Persisted.saveFieldEditing s with
     | Persisted.Done s' =>
       s' = s
       /\ (Persisted.fieldEditing s = None \/ Persisted.session s = None)
     | Persisted.Await s1 req k =>
       s1 = s
       /\ (exists fe payload,
              Persisted.fieldEditing s = Some fe
              /\ req = Persisted.Update (fe_id fe) payload
              /\ length payload = 1%nat)
       /\ (forall err s2,
              Persisted.fieldEditing (k (Persisted.Failure err) s2)
              = Persisted.fieldEditing s2
              /\ Persisted.fieldEditValue (k (Persisted.Failure err) s2)
                 = Persisted.fieldEditValue s2)
       /\ (forall data s2,
              Persisted.fieldEditing (k (Persisted.Success data) s2) = None
              /\ Persisted.fieldEditValue (k (Persisted.Success data) s2) = []
              /\ List.map id (Persisted.todos (k (Persisted.Success data) s2))
                 = List.map id (Persisted.todos s2)
              /\ List.map text
                   (Persisted.todos (k (Persisted.Success data) s2))
                 = List.map text (Persisted.todos s2)
              /\ List.map completed
                   (Persisted.todos (k (Persisted.Success data) s2))
                 = List.map completed (Persisted.todos s2))
     end.
Proof.
  split.
  - unfold Persisted.saveEditing.
    destruct (Persisted.session s) as [sess |]; [| split; auto].
    destruct (str_eqb (trim (form_text (Persisted.editForm s))) []) eqn:E.
    + apply str_eqb_eq in E. split; auto.
    + apply str_eqb_neq in E.
      split; [reflexivity |]. split; [exact E |].
      split; [reflexivity |]. split; [intros; split; reflexivity |].
      intros data s2. cbn. split; [reflexivity |].
      rewrite !List.map_map. split; apply List.map_ext;
        intros t; now destruct (str_eqb (id t) i).
  - unfold Persisted.saveFieldEditing.
    destruct (Persisted.fieldEditing s) as [fe |]; [| split; auto].
    destruct (Persisted.session s) as [sess |]; [| split; auto].
    split; [reflexivity |]. split.
    { exists fe. eexists. split; [reflexivity |]. split; [reflexivity |].
      now destruct (fe_field fe). }
    split; [intros; split; reflexivity |].
    intros data s2. cbn. split; [reflexivity |]. split; [reflexivity |].
    rewrite !List.map_map.
    assert (Hf : forall t,
               id (setField (fe_field fe) (Persisted.fieldEditValue s) t) = id t
               /\ text (setField (fe_field fe) (Persisted.fieldEditValue s) t)
                  = text t
               /\ completed
                    (setField (fe_field fe) (Persisted.fieldEditValue s) t)
                  = completed t).
    { intros t. destruct (fe_field fe); cbn [setField];
        [now repeat split | | now repeat split].
      now destruct (priorityOfString (Persisted.fieldEditValue s)). }
    repeat split; apply List.map_ext; intros t;
      destruct (str_eqb (id t) (fe_id fe)); try reflexivity; apply Hf.
Qed.

(** ** Session, fetch and authentication *)

(** X16.  The effect on the session and the sign-out.  With no session the
    effect clears the collection and the loading flag at once, without a
    fetch.  With a session it raises the loading flag and fetches; when
    the answer comes the loading flag is cleared either way, an error
    leaves the collection as it is and is reported, and otherwise the
    collection becomes the rows in the order the store gave them, one task
    per row (none for a missing [data]), with a missing due date read as
    the empty string, and the feedback is cleared.  Signing out empties
    the collection and reports success whatever the provider answers; the
    handler itself leaves the session as it is. *)
Theorem session_effect_and_sign_out (p : PersistedPage.Page) :
  match Persisted.session (PersistedPage.core p) with
  | None =>
    exists p',
      PersistedPage.sessionEffect p = PersistedPage.PDone p'
      /\ Persisted.todos (PersistedPage.core p') = []
      /\ PersistedPage.isLoading p' = false
  | Some _ =>
    exists p1 k,
      PersistedPage.sessionEffect p = PersistedPage.AwaitSelect p1 k
      /\ PersistedPage.isLoading p1 = true
      /\ PersistedPage.core p1 = PersistedPage.core p
      /\ (forall data err p2,
             PersistedPage.isLoading (k data (Some err) p2) = false
             /\ Persisted.todos (PersistedPage.core (k data (Some err) p2))
                = Persisted.todos (PersistedPage.core p2)
             /\ Persisted.feedback (PersistedPage.core (k data (Some err) p2))
                = Some (Persisted.mkFeedback Persisted.error
                          PersistedPage.msgFetchFailed))
      /\ (forall p2,
             Persisted.todos (PersistedPage.core (k None None p2)) = []
             /\ PersistedPage.isLoading (k None None p2) = false)
      /\ (forall rows p2,
             let p' := k (Some rows) None p2 in
             PersistedPage.isLoading p' = false
             /\ Persisted.feedback (PersistedPage.core p') = None
             /\ length (Persisted.todos (PersistedPage.core p')) = length rows
             /\ forall (n : nat) row,
                 rows !! n = Some row ->
                 exists t,
                   Persisted.todos (PersistedPage.core p') !! n = Some t
                   /\ id t = Persisted.row_id row
                   /\ text t = Persisted.row_text row
                   /\ category t = Persisted.row_category row
                   /\ priority t = Persisted.row_priority row
                   /\ completed t = Persisted.row_completed row
                   /\ (Persisted.row_due_date row = None -> dueDate t = [])
                   /\ (forall d, Persisted.row_due_date row = Some d ->
                                 dueDate t = d))
  end
  /\ exists k,
      PersistedPage.handleSignOut p
      = PersistedPage.AwaitAuth p PersistedPage.SignOut k
      /\ forall answer p2,
          Persisted.todos (PersistedPage.core (k answer p2)) = []
          /\ Persisted.feedback (PersistedPage.core (k answer p2))
             = Some (Persisted.mkFeedback Persisted.success
                       PersistedPage.msgSignedOut)
          /\ Persisted.session (PersistedPage.core (k answer p2))
             = Persisted.session (PersistedPage.core p2).
Proof.
  split.
  - unfold PersistedPage.sessionEffect.
    destruct (Persisted.session (PersistedPage.core p)) as [sess |].
    + eexists _, _. split; [reflexivity |]. split; [reflexivity |].
      split; [reflexivity |]. split; [intros; repeat split |].
      split; [intros; split; reflexivity |].
      intros rows p2. cbn.
      split; [reflexivity |]. split; [reflexivity |].
      split; [apply length_map |].
      intros n row Hn. exists (Persisted.mapRowToTodo row).
      split; [now rewrite list_lookup_fmap, Hn |].
      cbn. repeat split; try reflexivity.
      * now intros ->.
      * now intros d ->.
    + eexists. repeat split.
  - eexists. split; [reflexivity |]. intros answer p2. repeat split.
Qed.

(** X17.  [handleAuth].  With the email or the password empty it calls nothing
    and reports the missing input.  Otherwise it raises the busy flag and
    makes one call with the typed credentials, a sign-in in mode [signin]
    and a sign-up in mode [signup]; when the answer comes the busy flag is
    cleared, and the handler touches neither the collection nor the
    session (a session comes only through the listener).  No error gives a
    success feedback; an error gives an error feedback whose message in
    mode [signin] is the unconfirmed-email or the sign-in failure message,
    and in mode [signup] the password, the already-registered or the
    sign-up failure message, the password test going first; an error with
    no message gets the failure message of the mode. *)
Theorem handleAuth_outcomes (toLowerCase : jsstring -> jsstring)
  (mode : PersistedPage.AuthMode) (p : PersistedPage.Page) :
  match PersistedPage.handleAuth toLowerCase mode p with
  | PersistedPage.PDone p' =>
    (PersistedPage.authEmail p = [] \/ PersistedPage.authPassword p = [])
    /\ p' = PersistedPage.onCore
              (Persisted.reportError PersistedPage.msgNeedCredentials) p
  | PersistedPage.AwaitSelect _ _ => False
  | PersistedPage.AwaitAuth p1 call k =>
    PersistedPage.authEmail p <> [] /\ PersistedPage.authPassword p <> []
    /\ PersistedPage.authLoading p1 = true
    /\ PersistedPage.core p1 = PersistedPage.core p
    /\ call = match mode with
              | PersistedPage.signin =>
                PersistedPage.SignInWithPassword
                  (PersistedPage.authEmail p) (PersistedPage.authPassword p)
              | PersistedPage.signup =>
                PersistedPage.SignUp
                  (PersistedPage.authEmail p) (PersistedPage.authPassword p)
              end
    /\ forall answer p2,
        let p' := k answer p2 in
        PersistedPage.authLoading p' = false
        /\ Persisted.todos (PersistedPage.core p')
           = Persisted.todos (PersistedPage.core p2)
        /\ Persisted.session (PersistedPage.core p')
           = Persisted.session (PersistedPage.core p2)
        /\ match answer with
           | None =>
             exists m,
               Persisted.feedback (PersistedPage.core p')
               = Some (Persisted.mkFeedback Persisted.success m)
           | Some e =>
             exists m,
               Persisted.feedback (PersistedPage.core p')
               = Some (Persisted.mkFeedback Persisted.error m)
               /\ match mode with
                  | PersistedPage.signin =>
                    m = PersistedPage.msgNotConfirmed
                    \/ m = PersistedPage.msgSignInFailed
                  | PersistedPage.signup =>
                    m = PersistedPage.msgWeakPassword
                    \/ m = PersistedPage.msgAlreadyRegistered
                    \/ m = PersistedPage.msgSignUpFailed
                  end
               /\ (mode = PersistedPage.signup ->
                   PersistedPage.messageIncludes toLowerCase e (js "password")
                   = true ->
                   m = PersistedPage.msgWeakPassword)
               /\ (PersistedPage.message e = None ->
                   m = match mode with
                       | PersistedPage.signin => PersistedPage.msgSignInFailed
                       | PersistedPage.signup => PersistedPage.msgSignUpFailed
                       end)
           end
  end.
Proof.
  unfold PersistedPage.handleAuth.
  destruct (PersistedPage.authEmail p) as [| c1 e1] eqn:Ee; cbn [truthy negb orb].
  { split; [now left | reflexivity]. }
  destruct (PersistedPage.authPassword p) as [| c2 e2] eqn:Ep;
    cbn [truthy negb orb].
  { split; [now right | reflexivity]. }
  split; [discriminate |]. split; [discriminate |].
  split; [reflexivity |]. split; [reflexivity |]. split; [reflexivity |].
  intros answer p2. cbv zeta.
  split; [now destruct answer |]. split; [now destruct answer |].
  split; [now destruct answer |].
  destruct answer as [e |]; [| eexists; reflexivity].
  exists (PersistedPage.authErrorMessage toLowerCase mode e).
  split; [reflexivity |].
  unfold PersistedPage.authErrorMessage, PersistedPage.messageIncludes.
  destruct mode.
  - split; [| split; [discriminate |]].
    + destruct (PersistedPage.message e) as [m |]; [| now right].
      destruct (includes _ _); [now left | now right].
    + now intros ->.
  - split; [| split].
    + destruct (PersistedPage.message e) as [m |]; [| now right; right].
      destruct (includes (js "password") _); [now left |].
      destruct (includes _ _); [right; now left | right; now right].
    + intros _ H. now rewrite H.
    + now intros ->.
Qed.

(** ** The percentages on the page *)

Lemma percentagesCheckedBelow_128 : percentagesCheckedBelow 128 = true.
Proof. vm_compute. reflexivity. Qed.

Lemma roundedPercentage_range (len c : nat) :
  (c <= len)%nat ->
  0 <= roundedPercentage len c <= 100
  /\ (c = 0%nat -> roundedPercentage len c = 0)
  /\ (c = len -> (0 < len)%nat ->
      roundedPercentage len c = 100 /\ halfway len c = false).
Proof.
  intros Hc. unfold roundedPercentage, halfway.
  destruct (Nat.eqb_spec len 0) as [-> | Hlen].
  - repeat split; try lia.
  - assert (Hpos : 0 < 2 * Z.of_nat len) by lia.
    split; [split |]; [| | split].
    + apply Z.div_pos; lia.
    + apply Z.lt_succ_r. apply Z.div_lt_upper_bound; lia.
    + intros ->. apply Z.div_small. lia.
    + intros -> _. split.
      * symmetry. apply (Z.div_unique _ _ 100 (Z.of_nat len)); lia.
      * replace (200 * Z.of_nat len) with (100 * (2 * Z.of_nat len)) by lia.
        rewrite Z.mod_mul by lia. apply Z.eqb_neq. lia.
Qed.

Lemma percentagesCheckedBelow_sound (bound len c : nat) :
  percentagesCheckedBelow bound = true -> (len < bound)%nat -> (c <= len)%nat ->
  percentageChecked len c = true.
Proof.
  intros Hall Hlen Hc. unfold percentagesCheckedBelow in Hall.
  rewrite forallb_forall in Hall.
  specialize (Hall len). rewrite forallb_forall in Hall.
  apply Hall; apply in_seq; lia.
Qed.

Lemma percentageChecked_sound (len c : nat) :
  (len < 128)%nat -> (c <= len)%nat ->
  exists n,
    progressPercentageOf len c = f64_of_Z n
    /\ 0 <= n <= 100
    /\ roundedPercentage len c - 1 <= n <= roundedPercentage len c
    /\ (halfway len c = false -> n = roundedPercentage len c)
    /\ (c = 0%nat -> n = 0)
    /\ (c = len -> (0 < len)%nat -> n = 100).
Proof.
  intros Hlen Hc.
  pose proof (percentagesCheckedBelow_sound 128 len c
                percentagesCheckedBelow_128 Hlen Hc) as Hchk.
  destruct (roundedPercentage_range len c Hc) as (Hr & H0 & Hfull).
  unfold percentageChecked in Hchk. apply orb_true_iff in Hchk.
  destruct Hchk as [He | Hh].
  - exists (roundedPercentage len c). apply sf_eqb_eq in He.
    split; [exact He |]. split; [exact Hr |]. split; [lia |].
    split; [reflexivity |]. split; [exact H0 |].
    intros E Hp. now destruct (Hfull E Hp).
  - apply andb_true_iff in Hh as [Hh H1]. apply andb_true_iff in Hh as [He Hh].
    apply sf_eqb_eq in He. apply Z.leb_le in H1.
    exists (roundedPercentage len c - 1).
    split; [exact He |]. split; [lia |]. split; [lia |].
    split; [congruence |]. split.
    + intros E. specialize (H0 E). lia.
    + intros E Hp. destruct (Hfull E Hp). congruence.
Qed.

Lemma catProgress_as_percentage (stats : CategoryStat) :
  catProgress stats
  = progressPercentageOf (stat_total stats) (stat_completed stats).
Proof.
  unfold catProgress, progressPercentageOf.
  now destruct (stat_total stats).
Qed.

(** X13.  For a collection of fewer than 128 tasks the completion percentage is
    a whole number between 0 and 100: the exact rounding of
    [100 * completed / total] unless that value lies halfway between two
    whole numbers, where it may be the one below; it is 0 when nothing is
    completed and 100 when everything is.  The percentage of a category
    in the category panel is computed the same way and has the same
    bounds for a category of fewer than 128 tasks. *)
Theorem percentages_are_whole_and_in_range (todos : list Todo) :
  (length todos < 128)%nat ->
  (exists n,
      progressPercentage todos = f64_of_Z n
      /\ 0 <= n <= 100
      /\ roundedPercentage (length todos) (completedCount todos) - 1 <= n
         <= roundedPercentage (length todos) (completedCount todos)
      /\ (halfway (length todos) (completedCount todos) = false ->
          n = roundedPercentage (length todos) (completedCount todos))
      /\ (completedCount todos = 0%nat -> n = 0)
      /\ (completedCount todos = length todos -> todos <> [] -> n = 100))
  /\ forall stats,
      (stat_completed stats <= stat_total stats)%nat ->
      (stat_total stats < 128)%nat ->
      exists m,
        catProgress stats = f64_of_Z m
        /\ 0 <= m <= 100
        /\ (stat_completed stats = 0%nat -> m = 0)
        /\ (stat_completed stats = stat_total stats ->
            (0 < stat_total stats)%nat -> m = 100).
Proof.
  intros Hlen. split.
  - destruct (percentageChecked_sound (length todos) (completedCount todos)
                Hlen (completedCount_le_length todos))
      as (n & E & Hr & Hn & Hh & H0 & Hfull).
    exists n. repeat split; auto; try lia.
    intros Eall Hne. apply Hfull; [exact Eall |].
    destruct todos; [congruence | simpl; lia].
  - intros stats Hc Ht.
    destruct (percentageChecked_sound (stat_total stats) (stat_completed stats)
                Ht Hc) as (m & E & Hr & _ & _ & H0 & Hfull).
    exists m. rewrite catProgress_as_percentage. repeat split; auto; lia.
Qed.

Lemma percentages_are_whole_and_in_range_witness :
  exists n, progressPercentage (tasks 40 23) = f64_of_Z n /\ 0 <= n <= 100.
Proof.
  destruct (proj1 (percentages_are_whole_and_in_range (tasks 40 23)
                     ltac:(vm_compute; lia)))
    as (n & E & Hr & _).
  exists n. split; [exact E | exact Hr].
Defined.

(** ** What each control changes *)

(** Closes a goal that holds in every branch of the handler. *)
Ltac solve_by_branches :=
  repeat match goal with
         | |- context [if ?b then _ else _] => destruct b
         | |- context [match ?x with _ => _ end] => destruct x
         end;
  reflexivity.

(** X5.  Each control of the in-memory page changes only what it is for.  The
    collection changes only on add, toggle, delete and the two saves;
    which tasks there are, and in which order, only on add and delete;
    the completed flags only on toggle (and add and delete); the texts
    only on the row save (and add and delete); the create form only on
    its own inputs and on add. *)
Theorem controls_change_only_their_own_cells
  (e : LocalPage.Event) (s : Local.State) :
  let s' := LocalPage.fire e s in
  match e with
  | LocalPage.AddTodo _ | LocalPage.DeleteTodo _ => True
  | LocalPage.ToggleTodo _ =>
    List.map id (Local.todos s') = List.map id (Local.todos s)
    /\ List.map text (Local.todos s') = List.map text (Local.todos s)
    /\ List.map category (Local.todos s') = List.map category (Local.todos s)
    /\ List.map priority (Local.todos s') = List.map priority (Local.todos s)
    /\ List.map dueDate (Local.todos s') = List.map dueDate (Local.todos s)
  | LocalPage.SaveEditing _ =>
    List.map id (Local.todos s') = List.map id (Local.todos s)
    /\ List.map completed (Local.todos s')
       = List.map completed (Local.todos s)
  | LocalPage.SaveFieldEditing =>
    List.map id (Local.todos s') = List.map id (Local.todos s)
    /\ List.map completed (Local.todos s')
       = List.map completed (Local.todos s)
    /\ List.map text (Local.todos s') = List.map text (Local.todos s)
  | _ => Local.todos s' = Local.todos s
  end
  /\ match e with
     | LocalPage.CreateChange _ | LocalPage.AddTodo _ => True
     | _ => Local.form s' = Local.form s
     end
  /\ match e with
     | LocalPage.StartEditing _ | LocalPage.EditChange _ => True
     | _ => Local.editForm s' = Local.editForm s
     end.
Proof.
  intros s'. subst s'. split; [| split].
  - destruct e as [c | uuid | i | i | todo | c | | i | todo field | v | |];
      cbn [LocalPage.fire]; try exact I; try reflexivity.
    + unfold Local.toggleTodo. cbn [Local.todos Local.setTodos].
      rewrite !List.map_map.
      repeat split; apply List.map_ext; intros t;
        now destruct (str_eqb (id t) i).
    + unfold Local.saveEditing.
      destruct (str_eqb _ _); [split; reflexivity |].
      cbn [Local.todos Local.setTodos Local.setEditingId].
      rewrite !List.map_map.
      split; apply List.map_ext; intros t; now destruct (str_eqb (id t) i).
    + now destruct field.
    + unfold Local.saveFieldEditing.
      destruct (Local.fieldEditing s) as [fe |]; [| repeat split].
      cbn [Local.todos Local.setTodos Local.setFieldEditing
           Local.setFieldEditValue].
      rewrite !List.map_map.
      assert (Hf : forall t,
                 id (setField (fe_field fe) (Local.fieldEditValue s) t) = id t
                 /\ text (setField (fe_field fe) (Local.fieldEditValue s) t)
                    = text t
                 /\ completed
                      (setField (fe_field fe) (Local.fieldEditValue s) t)
                    = completed t).
      { intros t. destruct (fe_field fe); cbn [setField];
          [now repeat split | | now repeat split].
        now destruct (priorityOfString (Local.fieldEditValue s)). }
      repeat split; apply List.map_ext; intros t;
        destruct (str_eqb (id t) (fe_id fe)); try reflexivity; apply Hf.
  - destruct e as [c | uuid | i | i | todo | c | | i | todo field | v | |];
      cbn [LocalPage.fire]; try exact I; try reflexivity;
      unfold Local.deleteTodo, Local.saveEditing, Local.saveFieldEditing,
        Local.startFieldEditing;
      solve_by_branches.
  - destruct e as [c | uuid | i | i | todo | c | | i | todo field | v | |];
      cbn [LocalPage.fire]; try exact I; try reflexivity;
      unfold Local.addTodo, Local.deleteTodo, Local.saveEditing,
        Local.saveFieldEditing, Local.startFieldEditing;
      solve_by_branches.
Qed.

(** ** The counters under the mutations *)

Lemma split_at_unique_id (l : list Todo) (t : Todo) :
  List.NoDup (List.map id l) -> In t l ->
  exists l1 l2,
    l = l1 ++ t :: l2
    /\ (forall x, In x l1 -> str_eqb (id x) (id t) = false)
    /\ (forall x, In x l2 -> str_eqb (id x) (id t) = false).
Proof.
  intros Hnd Hin. destruct (List.in_split t l Hin) as (l1 & l2 & ->).
  exists l1, l2. split; [reflexivity |].
  rewrite List.map_app in Hnd. cbn [List.map] in Hnd.
  apply List.NoDup_remove_2 in Hnd.
  split; intros x Hx; apply str_eqb_neq; intros E; apply Hnd;
    rewrite <- E; apply List.in_or_app; [left | right]; now apply List.in_map.
Qed.

Lemma completedCount_app (l1 l2 : list Todo) :
  completedCount (l1 ++ l2) = (completedCount l1 + completedCount l2)%nat.
Proof.
  unfold completedCount. now rewrite List.filter_app, List.length_app.
Qed.

Lemma completedCount_cons (t : Todo) (l : list Todo) :
  completedCount (t :: l)
  = ((if completed t then 1 else 0) + completedCount l)%nat.
Proof. unfold completedCount. simpl. now destruct (completed t). Qed.

(** X6.  On a state that keeps the data model, each mutation moves the
    counters by exactly the one task it acts on.  A create with a
    non-blank text makes the collection one longer and leaves the
    completed count as it is; toggling a task of the collection keeps the
    length and moves the completed count by one, up for a pending task and
    down for a completed one; deleting a task of the collection makes the
    collection one shorter and takes a completed task out of the completed
    count. *)
Theorem mutations_move_the_counters_by_one
  (Date_getTime : jsstring -> option Z) (s : Local.State) :
  LocalPage.wellFormed Date_getTime s ->
  (forall uuid,
      trim (form_text (Local.form s)) <> [] ->
      length (Local.todos (Local.addTodo uuid s))
      = S (length (Local.todos s))
      /\ completedCount (Local.todos (Local.addTodo uuid s))
         = completedCount (Local.todos s)
      /\ pendingCount (Local.todos (Local.addTodo uuid s))
         = S (pendingCount (Local.todos s)))
  /\ (forall t,
         In t (Local.todos s) ->
         length (Local.todos (Local.toggleTodo (id t) s))
         = length (Local.todos s)
         /\ (completed t = false ->
             completedCount (Local.todos (Local.toggleTodo (id t) s))
             = S (completedCount (Local.todos s)))
         /\ (completed t = true ->
             S (completedCount (Local.todos (Local.toggleTodo (id t) s)))
             = completedCount (Local.todos s)))
  /\ (forall t,
         In t (Local.todos s) ->
         S (length (Local.todos (Local.deleteTodo (id t) s)))
         = length (Local.todos s)
         /\ ~ In t (Local.todos (Local.deleteTodo (id t) s))
         /\ (completedCount (Local.todos (Local.deleteTodo (id t) s))
             + (if completed t then 1 else 0)
             = completedCount (Local.todos s))%nat).
Proof.
  intros (Hnd & _). split; [| split].
  - intros uuid Hne. unfold Local.addTodo.
    rewrite (proj2 (str_eqb_neq _ _) Hne).
    cbn [Local.todos Local.setTodos Local.resetForm Local.setForm].
    pose proof (filter_negb_length (fun todo => completed todo)
                  (Local.todos s)) as Hsplit.
    unfold pendingCount, completedCount in *.
    rewrite !List.filter_app, !List.length_app. simpl. lia.
  - intros t Hin.
    destruct (split_at_unique_id _ t Hnd Hin) as (l1 & l2 & E & H1 & H2).
    unfold Local.toggleTodo. cbn [Local.todos Local.setTodos].
    split; [apply length_map |].
    rewrite E, List.map_app. cbn [List.map].
    rewrite (proj2 (str_eqb_eq (id t) (id t)) eq_refl).
    rewrite (map_id_on _ l1), (map_id_on _ l2);
      try (intros x Hx; now rewrite ?(H1 x Hx), ?(H2 x Hx)).
    rewrite !completedCount_app, !completedCount_cons.
    cbn [completed setCompleted].
    split; intros ->; simpl; lia.
  - intros t Hin.
    destruct (split_at_unique_id _ t Hnd Hin) as (l1 & l2 & E & H1 & H2).
    assert (Hdel : Local.todos (Local.deleteTodo (id t) s) = l1 ++ l2).
    { unfold Local.deleteTodo.
      assert (Hf : List.filter (fun todo => negb (str_eqb (id todo) (id t)))
                               (Local.todos s) = l1 ++ l2).
      { rewrite E, List.filter_app. cbn [List.filter].
        rewrite (proj2 (str_eqb_eq (id t) (id t)) eq_refl). cbn [negb].
        rewrite !filter_keeps_all;
          try (intros x Hx; now rewrite ?(H1 x Hx), ?(H2 x Hx)).
        reflexivity. }
      now destruct (editingIs (Local.editingId s) (id t)). }
    rewrite Hdel, E. rewrite !List.length_app. cbn [length].
    split; [lia |]. split.
    + intros Hc. apply List.in_app_or in Hc as [Hc | Hc];
        [specialize (H1 t Hc) | specialize (H2 t Hc)];
        now rewrite (proj2 (str_eqb_eq (id t) (id t)) eq_refl) in *.
    + rewrite !completedCount_app, completedCount_cons. lia.
Qed.

Lemma mutations_move_the_counters_by_one_witness :
  completedCount (Local.todos (Local.toggleTodo (id reviewPR) scenarioPage))
  = S (completedCount (Local.todos scenarioPage)).
Proof.
  exact (proj1 (proj2 (proj1 (proj2 (mutations_move_the_counters_by_one
                                       isoDateTime scenarioPage
                                       scenarioPage_wellFormed))
                         reviewPR
                         (or_intror (or_intror (or_introl eq_refl)))))
               eq_refl).
Defined.

(** ** Editing a single field *)

(** X4.  On a state that keeps the data model, for a task [t] of the
    collection and a value [v] the editor of the field offers: opening
    the editor on the field, choosing [v] and saving replaces [t], at its
    place, by [t] with that one field set to [v] (the priority [v] names,
    for the priority field), leaves every other task as it is, and closes
    the session with an empty draft; the id, the text and the completed
    flag of [t] stay.  Cancelling instead leaves the collection as it is
    and closes the session as well. *)
Theorem field_edit_commits_only_that_field
  (Date_getTime : jsstring -> option Z) (s : Local.State) (t : Todo)
  (field : EditField) (v : jsstring) :
  LocalPage.wellFormed Date_getTime s ->
  In t (Local.todos s) ->
  LocalPage.fieldValueOffered Date_getTime field v ->
  let s1 := Local.setFieldEditValue v (Local.startFieldEditing t field s) in
  let s2 := Local.saveFieldEditing s1 in
  (forall (n : nat) (t0 : Todo),
      Local.todos s !! n = Some t0 ->
      Local.todos s2 !! n
      = Some (if decide (t0 = t) then setField field v t else t0))
  /\ Local.fieldEditing s2 = None
  /\ Local.fieldEditValue s2 = []
  /\ id (setField field v t) = id t
  /\ text (setField field v t) = text t
  /\ completed (setField field v t) = completed t
  /\ match field with
     | FieldCategory =>
       category (setField field v t) = v
       /\ priority (setField field v t) = priority t
       /\ dueDate (setField field v t) = dueDate t
     | FieldPriority =>
       priorityString (priority (setField field v t)) = v
       /\ category (setField field v t) = category t
       /\ dueDate (setField field v t) = dueDate t
     | FieldDueDate =>
       dueDate (setField field v t) = v
       /\ category (setField field v t) = category t
       /\ priority (setField field v t) = priority t
     end
  /\ Local.todos (Local.cancelFieldEditing s1) = Local.todos s
  /\ Local.fieldEditing (Local.cancelFieldEditing s1) = None.
Proof.
  intros (Hnd & _) Hin Hv s1 s2. subst s1 s2.
  assert (Hsame : forall t0, In t0 (Local.todos s) ->
                             str_eqb (id t0) (id t) = true -> t0 = t).
  { intros t0 Ht0 E. apply str_eqb_eq in E.
    now apply (NoDup_map_injective_on id (Local.todos s)). }
  assert (Hstate :
            Local.saveFieldEditing
              (Local.setFieldEditValue v (Local.startFieldEditing t field s))
            = Local.setFieldEditValue []
                (Local.setFieldEditing None
                   (Local.setTodos
                      (fun prev =>
                         List.map (fun todo =>
                                     if str_eqb (id todo) (id t)
                                     then setField field v todo else todo)
                                  prev)
                      (Local.setFieldEditValue v
                         (Local.startFieldEditing t field s))))).
  { unfold Local.saveFieldEditing, Local.startFieldEditing.
    now destruct field. }
  rewrite Hstate.
  split; [| split; [reflexivity |]; split; [reflexivity |]].
  - intros n t0 Hn.
    cbn [Local.todos Local.setTodos Local.setFieldEditing
         Local.setFieldEditValue].
    assert (Htodos : Local.todos (Local.startFieldEditing t field s)
                     = Local.todos s) by now destruct field.
    rewrite Htodos, list_lookup_fmap, Hn.
    cbn [fmap option_fmap option_map]. f_equal.
    assert (Ht0 : In t0 (Local.todos s)).
    { apply list_elem_of_In. eapply list_elem_of_lookup_2; eauto. }
    destruct (str_eqb (id t0) (id t)) eqn:E.
    + rewrite (Hsame t0 Ht0 E). now rewrite decide_True.
    + rewrite decide_False; [reflexivity |].
      intros ->. apply str_eqb_neq in E. now apply E.
  - destruct field; cbn [setField LocalPage.fieldValueOffered] in *.
    + repeat split.
    + destruct Hv as [p ->]. rewrite priorityOfString_priorityString.
      repeat split.
    + repeat split.
Qed.

Lemma field_edit_commits_only_that_field_witness :
  Local.fieldEditing
    (Local.saveFieldEditing
       (Local.setFieldEditValue (js "high")
          (Local.startFieldEditing reviewPR FieldPriority scenarioPage)))
  = None.
Proof.
  exact (proj1 (proj2 (field_edit_commits_only_that_field isoDateTime
                         scenarioPage reviewPR FieldPriority (js "high")
                         scenarioPage_wellFormed
                         (or_intror (or_intror (or_introl eq_refl)))
                         (ex_intro _ high eq_refl)))).
Defined.
